(** * Session lifecycle manager of the WhatsApp gateway (src/index.js)

    A shallow embedding of the Express/Socket.IO server of [src/index.js]:
    the process-wide [sessions] object, the closure variables that every
    call of [createNewClientSession] allocates, the five client event
    handlers and the five HTTP handlers.

    Conventions of the embedding.
    - [sessions] is a JavaScript object used as a map from session ids to
      records.  Its own properties are a [gmap string Session]; reading
      [sessions[id]] for an id that is no own property falls through to
      [Object.prototype] ([get_session]).  The only writer, line 87, is
      called with generated ids alone, so that a write to [__proto__] is
      not modelled.
    - Each call of [createNewClientSession] creates one client object and
      one closure environment holding the [let] variables [qrCodeData] and
      [clientReady]; a client handle is the index of its environment in
      [clients].
    - Everything the server does to the outside (client methods, [fs],
      [io.emit]) is appended to a chronological [trace], and so are the
      events the clients raise and the writes to [sessions], so that the
      order of the steps of a handler can be read off it.  What the outside
      answers (a rejected promise, the encoded QR image, the random bytes)
      is read from an [External] oracle that may depend on the whole world.
    - The callback handed to [qrcode.toDataURL] is called by the library
      later: the call is kept in [pending] until the event loop is given
      the callback ([CalledBack]), in any order and with anything in
      between.
    - A request handler runs to completion at once: the interleaving of
      two handlers at an [await] is not modelled, and neither is logging
      with [console]. *)

From Stdlib Require Import Strings.Ascii Strings.String Strings.Byte.
From stdpp Require Import base option list strings gmap.

Local Open Scope string_scope.
Local Open Scope list_scope.

(** ** Data model *)

(** A client object, identified by its allocation index. *)
Abbreviation Handle := nat (only parsing).

(** The object literal [{ client, qrCodeData, clientReady }] stored in
    [sessions] (index.js:87). *)
Record Session := mkSession {
  client : Handle;
  qrCodeData : string;
  clientReady : bool
}.

(** The environment captured by the event handlers of one client: the
    parameter [sessionId] and the two [let] variables (index.js:41-42). *)
Record Closure := mkClosure {
  cl_sessionId : string;
  cl_qrCodeData : string;
  cl_clientReady : bool
}.

(** The events the client raises (index.js:44, 59, 66, 71, 77). *)
Inductive ClientEvent :=
| EvQr (qr : string)
| EvReady
| EvAuthenticated
| EvAuthFailure (msg : string)
| EvDisconnected (reason : string).

(** What [io.emit] broadcasts. *)
Inductive IoEvent :=
| IoQr (sessionId qrCodeData : string)
| IoReady (sessionId : string)
| IoAuthenticated (sessionId : string)
| IoAuthFailure (sessionId message : string)
| IoDisconnected (sessionId reason : string).

(** One entry of the trace. *)
Inductive Action :=
| ActNewClient (h : Handle) (clientId : string)
| ActInitialize (h : Handle)
| ActRaised (h : Handle) (ev : ClientEvent)
| ActEmit (e : IoEvent)
| ActSendMessage (h : Handle) (chatId message : string)
| ActLogout (h : Handle)
| ActDestroy (h : Handle)
| ActExistsSync (p : option string)
| ActRmdirSync (p : string)
| ActStoreSession (sessionId : string)
| ActDeleteSession (sessionId : string).

(** The process and its surroundings: the registry, the closure
    environments, the directories on disk, the trace, and the calls of
    [qrcode.toDataURL] that have not called back yet, each with the client
    whose handler made it and the pairing code it was given. *)
Record World := mkWorld {
  sessions : gmap string Session;
  clients : list Closure;
  fs : gset string;
  trace : list Action;
  pending : list (nat * string)
}.

Definition empty_world : World :=
  {| sessions := ∅; clients := []; fs := ∅; trace := []; pending := [] |}.

(** The answers of the outside world, each given the world in which the
    call is made:
    - [ext_randomBytes w n], the bytes [crypto.randomBytes(n)] returns;
    - [ext_toDataURL qr], the data URL [qrcode.toDataURL] passes to its
      callback, or [None] when it passes an error;
    - [ext_authStore id], the directory in which [LocalAuth] keeps the
      credentials of the client id [id];
    - [ext_initialize w h], the disk after [client.initialize()];
    - [ext_sendMessage w h chatId message], whether the promise of
      [client.sendMessage] resolves ([true]) or rejects;
    - [ext_logout w h] and [ext_destroy w h], whether the promise resolves,
      and the disk the call leaves. *)
Record External := mkExternal {
  ext_randomBytes : World → nat → list byte;
  ext_toDataURL : string → option string;
  ext_authStore : string → string;
  ext_initialize : World → Handle → gset string;
  ext_sendMessage : World → Handle → string → string → bool;
  ext_logout : World → Handle → bool * gset string;
  ext_destroy : World → Handle → bool * gset string
}.

(** What a handler writes to [res]. *)
Inductive Response :=
| RespSend (status : nat) (text : string)
| RespJson (status : nat) (st message : string)
| RespRedirect (location : string)
| RespQrPage (sessionId qrCodeData : string)
| RespSendForm (sessionId : string)
| RespUnhandled.

(** ** A state and exception monad for the handlers *)

Inductive Result (A : Type) :=
| Ok (a : A)
| Throw.
Arguments Ok {A} a.
Arguments Throw {A}.

Definition M (A : Type) : Type := World → Result A * World.

Definition ret {A} (a : A) : M A := λ w, (Ok a, w).

Definition bind {A B} (m : M A) (k : A → M B) : M B :=
  λ w, match m w with
       | (Ok a, w') => k a w'
       | (Throw, w') => (Throw, w')
       end.

Definition try_catch {A} (body handler : M A) : M A :=
  λ w, match body w with
       | (Ok a, w') => (Ok a, w')
       | (Throw, w') => handler w'
       end.

Notation "'do' x <- m ;; k" := (bind m (λ x, k))
  (at level 10, x name, m at level 99, k at level 200,
   format "'[v' 'do'  x  <-  m  ;; '/' k ']'").
Notation "'exec' m ;; k" := (bind m (λ _, k))
  (at level 10, m at level 99, k at level 200,
   format "'[v' 'exec'  m  ;; '/' k ']'").

(** *** Primitive effects *)

Definition set_sessions (f : gmap string Session → gmap string Session) (w : World) : World :=
  {| sessions := f (sessions w); clients := clients w; fs := fs w; trace := trace w;
     pending := pending w |}.

Definition set_clients (f : list Closure → list Closure) (w : World) : World :=
  {| sessions := sessions w; clients := f (clients w); fs := fs w; trace := trace w;
     pending := pending w |}.

Definition set_fs (d : gset string) (w : World) : World :=
  {| sessions := sessions w; clients := clients w; fs := d; trace := trace w;
     pending := pending w |}.

Definition set_pending (f : list (nat * string) → list (nat * string)) (w : World) : World :=
  {| sessions := sessions w; clients := clients w; fs := fs w; trace := trace w;
     pending := f (pending w) |}.

Definition log (a : Action) (w : World) : World :=
  {| sessions := sessions w; clients := clients w; fs := fs w; trace := trace w ++ [a];
     pending := pending w |}.

(** What [sessions[sessionId]] is when it is not [undefined]: a record
    stored at line 87, or a member that the object [sessions] inherits from
    [Object.prototype] (a function, or the prototype itself for
    [__proto__]). *)
Inductive JsSession :=
| JsRecord (s : Session)
| JsInherited.

(** The names [Object.prototype] has in Node. *)
Definition Object_prototype_members : list string :=
  ["constructor"; "__defineGetter__"; "__defineSetter__"; "hasOwnProperty";
   "__lookupGetter__"; "__lookupSetter__"; "isPrototypeOf"; "propertyIsEnumerable";
   "toString"; "valueOf"; "__proto__"; "toLocaleString"].

Definition is_inherited (sessionId : string) : bool :=
  existsb (String.eqb sessionId) Object_prototype_members.

(** [sessions[sessionId]]: the own property if there is one, else what the
    prototype has under that name, else [undefined]. *)
Definition get_session (sessionId : string) : M (option JsSession) :=
  λ w, (Ok (match sessions w !! sessionId with
            | Some s => Some (JsRecord s)
            | None => if is_inherited sessionId then Some JsInherited else None
            end), w).

(** The properties the handlers read off [sessions[sessionId]]; an
    inherited member has none of them. *)
Definition prop_client (session : JsSession) : option nat :=
  match session with
  | JsRecord s => Some (client s)
  | JsInherited => None
  end.

Definition prop_qrCodeData (session : JsSession) : option string :=
  match session with
  | JsRecord s => Some (qrCodeData s)
  | JsInherited => None
  end.

Definition prop_clientReady (session : JsSession) : option bool :=
  match session with
  | JsRecord s => Some (clientReady s)
  | JsInherited => None
  end.

(** [receiver.method(...)]: a [TypeError] when the receiver is [undefined]. *)
Definition method {A} (receiver : option nat) (call : nat → M A) : M A :=
  match receiver with
  | Some h => call h
  | None => λ w, (Throw, w)
  end.

Definition store_session (sessionId : string) (s : Session) : M unit :=
  λ w, (Ok tt, log (ActStoreSession sessionId) (set_sessions (insert sessionId s) w)).

Definition delete_session (sessionId : string) : M unit :=
  λ w, (Ok tt, log (ActDeleteSession sessionId) (set_sessions (delete sessionId) w)).

Definition io_emit (e : IoEvent) : M unit :=
  λ w, (Ok tt, log (ActEmit e) w).

Definition update_closure (h : Handle) (f : Closure → Closure) : M unit :=
  λ w, (Ok tt, set_clients (alter f h) w).

Definition set_qrCodeData (v : string) (c : Closure) : Closure :=
  {| cl_sessionId := cl_sessionId c; cl_qrCodeData := v; cl_clientReady := cl_clientReady c |}.

Definition set_clientReady (v : bool) (c : Closure) : Closure :=
  {| cl_sessionId := cl_sessionId c; cl_qrCodeData := cl_qrCodeData c; cl_clientReady := v |}.

(** [fs.existsSync]: [false] for [undefined] as for a path that is not there. *)
Definition fs_existsSync (p : option string) : M bool :=
  λ w, (Ok (match p with
            | Some d => bool_decide (d ∈ fs w)
            | None => false
            end), log (ActExistsSync p) w).

Definition is_under (d q : string) : bool :=
  String.eqb d q || String.prefix (d +:+ "/") q.

(** [fs.rmdirSync(p, { recursive: true })]: a [TypeError] for [undefined],
    otherwise [p] and everything under it are gone. *)
Definition fs_rmdirSync (p : option string) : M unit :=
  λ w, match p with
       | Some d =>
           (Ok tt, log (ActRmdirSync d)
                     (set_fs (filter (λ q, is_under d q = false) (fs w)) w))
       | None => (Throw, w)
       end.

(** ** The server *)

Section Server.

Variable ext : External.

(** *** The external collaborators *)

(** [new Client({ authStrategy: new LocalAuth({ clientId }), ... })] together
    with the closure environment its handlers capture. *)
Definition new_Client (clientId : string) (env : Closure) : M Handle :=
  λ w, let h := length (clients w) in
       (Ok h, log (ActNewClient h clientId) (set_clients (λ l, l ++ [env]) w)).

(** [client.initialize()]: the promise is not awaited. *)
Definition client_initialize (h : Handle) : M unit :=
  λ w, (Ok tt, log (ActInitialize h) (set_fs (ext_initialize ext w h) w)).

Definition client_sendMessage (h : Handle) (chatId message : string) : M unit :=
  λ w, let w' := log (ActSendMessage h chatId message) w in
       if ext_sendMessage ext w h chatId message then (Ok tt, w') else (Throw, w').

Definition client_logout (h : Handle) : M unit :=
  λ w, let w' := log (ActLogout h) (set_fs (ext_logout ext w h).2 w) in
       if (ext_logout ext w h).1 then (Ok tt, w') else (Throw, w').

Definition client_destroy (h : Handle) : M unit :=
  λ w, let w' := log (ActDestroy h) (set_fs (ext_destroy ext w h).2 w) in
       if (ext_destroy ext w h).1 then (Ok tt, w') else (Throw, w').

(** *** [generateSessionId] (index.js:29-31) *)

Definition hex_digit (n : nat) : ascii :=
  match n with
  | 0 => "0" | 1 => "1" | 2 => "2" | 3 => "3" | 4 => "4" | 5 => "5" | 6 => "6" | 7 => "7"
  | 8 => "8" | 9 => "9" | 10 => "a" | 11 => "b" | 12 => "c" | 13 => "d" | 14 => "e" | _ => "f"
  end%char.

(** [Buffer.prototype.toString('hex')]. *)
Fixpoint toString_hex (bs : list byte) : string :=
  match bs with
  | [] => ""
  | b :: bs' =>
      String (hex_digit (Byte.to_nat b / 16))
        (String (hex_digit (Byte.to_nat b mod 16)) (toString_hex bs'))
  end.

Definition generateSessionId : M string :=
  λ w, (Ok (toString_hex (ext_randomBytes ext w 15)), w).

(** *** [createNewClientSession] (index.js:34-90) *)

(** The record keeps the values the two variables have when line 87 runs:
    strings and booleans are copied, not shared. *)
Definition createNewClientSession (sessionId : string) : M string :=
  let qrCodeData := "" in
  let clientReady := false in
  do client <- new_Client sessionId
                 {| cl_sessionId := sessionId;
                    cl_qrCodeData := qrCodeData;
                    cl_clientReady := clientReady |} ;;
  exec client_initialize client ;;
  exec store_session sessionId
         {| client := client; qrCodeData := qrCodeData; clientReady := clientReady |} ;;
  ret sessionId.

(** *** The client event handlers (index.js:44-82)

    [h] is the client the handler was registered on and [sessionId] the
    parameter its closure captured. *)

(** [qrcode.toDataURL(qr, callback)] (index.js:46): the library keeps the
    callback and calls it later. *)
Definition qrcode_toDataURL (h : Handle) (qr : string) : M unit :=
  λ w, (Ok tt, set_pending (λ l, l ++ [(h, qr)]) w).

(** The handler of [qr] (index.js:44-56) only starts the encoding. *)
Definition on_qr (h : Handle) (sessionId qr : string) : M unit :=
  qrcode_toDataURL h qr.

(** The callback (index.js:46-55), given what the encoder made of the
    code: [None] for [err].  In the [else] branch the variable
    [qrCodeData] holds [url] when [io.emit] reads it. *)
Definition qr_callback (h : Handle) (sessionId : string) (result : option string) : M unit :=
  match result with
  | None => ret tt
  | Some url =>
      exec update_closure h (set_qrCodeData url) ;;
      exec update_closure h (set_clientReady false) ;;
      io_emit (IoQr sessionId url)
  end.

Definition on_ready (h : Handle) (sessionId : string) : M unit :=
  exec update_closure h (set_qrCodeData "") ;;
  exec update_closure h (set_clientReady true) ;;
  io_emit (IoReady sessionId).

Definition on_authenticated (h : Handle) (sessionId : string) : M unit :=
  io_emit (IoAuthenticated sessionId).

Definition on_auth_failure (h : Handle) (sessionId msg : string) : M unit :=
  exec update_closure h (set_qrCodeData "") ;;
  io_emit (IoAuthFailure sessionId msg).

Definition on_disconnected (h : Handle) (sessionId reason : string) : M unit :=
  exec update_closure h (set_qrCodeData "") ;;
  exec update_closure h (set_clientReady false) ;;
  io_emit (IoDisconnected sessionId reason).

Definition client_on (h : Handle) (sessionId : string) (ev : ClientEvent) : M unit :=
  match ev with
  | EvQr qr => on_qr h sessionId qr
  | EvReady => on_ready h sessionId
  | EvAuthenticated => on_authenticated h sessionId
  | EvAuthFailure msg => on_auth_failure h sessionId msg
  | EvDisconnected reason => on_disconnected h sessionId reason
  end.

(** The client [h] raises [ev] and the handler of [ev] runs; nothing
    happens when no such client was ever created. *)
Definition raise (h : Handle) (ev : ClientEvent) (w : World) : World :=
  match clients w !! h with
  | None => w
  | Some env => (client_on h (cl_sessionId env) ev (log (ActRaised h ev) w)).2
  end.

(** The encoder calls the [k]-th pending callback, which runs in the
    closure of the client whose handler started the encoding. *)
Definition call_back (k : nat) (w : World) : World :=
  match pending w !! k with
  | None => w
  | Some (h, qr) =>
      let w' := set_pending (delete k) w in
      match clients w !! h with
      | None => w'
      | Some env => (qr_callback h (cl_sessionId env) (ext_toDataURL ext qr) w').2
      end
  end.

(** The client [h] raises [ev] and, when [ev] is a pairing code, the
    encoder calls back before anything else happens: [raise], then the
    callback it has just left pending. *)
Definition deliver (h : Handle) (ev : ClientEvent) (w : World) : World :=
  match ev with
  | EvQr _ => call_back (length (pending w)) (raise h ev w)
  | _ => raise h ev w
  end.

(** *** The HTTP handlers *)

(** The parsed form of a POST: each field is a string or absent. *)
Record Body := mkBody {
  number : option string;
  message : option string
}.

(** [!v] for a field that is a string or [undefined]. *)
Definition is_falsy (v : option string) : bool :=
  match v with
  | None => true
  | Some s => String.eqb s ""
  end.

(** A string used as a condition. *)
Definition truthy (s : string) : bool := negb (String.eqb s "").

(** The character class [\D]. *)
Definition is_digit (c : ascii) : bool :=
  ((48 <=? nat_of_ascii c) && (nat_of_ascii c <=? 57))%nat.

(** [s.replace(/\D/g, '')] (index.js:175). *)
Fixpoint replace_nondigits (s : string) : string :=
  match s with
  | EmptyString => EmptyString
  | String c r =>
      if is_digit c then String c (replace_nondigits r) else replace_nondigits r
  end.

(** The address a message to [number] is sent to (index.js:175-176). *)
Definition chatId_of (number : string) : string :=
  let formattedNumber := replace_nondigits number in
  formattedNumber +:+ "@c.us".

(** [session.sessionDir]: neither the records of [sessions] nor the
    inherited members have such a property, so that reading it gives
    [undefined]. *)
Definition prop_sessionDir (session : JsSession) : option string := None.

(** GET /qr/:sessionId (index.js:93-131). *)
Definition get_qr (sessionId : string) : M Response :=
  do session <- get_session sessionId ;;
  match session with
  | None => ret (RespSend 404 "Session not found.")
  | Some session =>
      let qrCodeData := prop_qrCodeData session in
      let clientReady := prop_clientReady session in
      if default false clientReady
      then ret (RespRedirect ("/send-message/" +:+ sessionId))
      else if negb (is_falsy qrCodeData)
      then ret (RespQrPage sessionId (default "" qrCodeData))
      else ret (RespSend 200 "QR code belum tersedia. Silakan coba lagi nanti.")
  end.

(** GET /send-message/:sessionId (index.js:135-156). *)
Definition get_send_message (sessionId : string) : M Response :=
  do session <- get_session sessionId ;;
  match session with
  | None => ret (RespRedirect ("/qr/" +:+ sessionId))
  | Some session =>
      if negb (default false (prop_clientReady session))
      then ret (RespRedirect ("/qr/" +:+ sessionId))
      else ret (RespSendForm sessionId)
  end.

(** POST /send-message/:sessionId (index.js:159-188). *)
Definition post_send_message (sessionId : string) (body : Body) : M Response :=
  do session <- get_session sessionId ;;
  match session with
  | None => ret (RespSend 404 "Session not found.")
  | Some session =>
      let client := prop_client session in
      if is_falsy (number body) || is_falsy (message body)
      then ret (RespJson 400 "error" "Please provide both number and message.")
      else
        let chatId := chatId_of (default "" (number body)) in
        try_catch
          (exec method client
                  (λ c, client_sendMessage c chatId (default "" (message body))) ;;
           ret (RespRedirect ("/qr/" +:+ sessionId)))
          (ret (RespSend 500 "Failed to send message."))
  end.

(** POST /logout/:sessionId (index.js:191-219). *)
Definition post_logout (sessionId : string) : M Response :=
  do session <- get_session sessionId ;;
  match session with
  | None => ret (RespSend 404 "Session not found.")
  | Some session =>
      try_catch
        (let client := prop_client session in
         let sessionDir := prop_sessionDir session in
         exec method client client_logout ;;
         exec method client client_destroy ;;
         do present <- fs_existsSync sessionDir ;;
         exec (if present then fs_rmdirSync sessionDir else ret tt) ;;
         exec delete_session sessionId ;;
         ret (RespJson 200 "success" "Logged out and session cleared. Scan a new QR code."))
        (ret (RespJson 500 "error" "Failed to log out."))
  end.

(** GET /start-session (index.js:227-231). *)
Definition get_start_session : M Response :=
  do sessionId <- generateSessionId ;;
  exec createNewClientSession sessionId ;;
  ret (RespRedirect ("/qr/" +:+ sessionId)).

(** *** The event loop *)

Inductive Request :=
| GetStartSession
| GetQr (sessionId : string)
| GetSendMessage (sessionId : string)
| PostSendMessage (sessionId : string) (body : Body)
| PostLogout (sessionId : string).

Definition route (req : Request) : M Response :=
  match req with
  | GetStartSession => get_start_session
  | GetQr sessionId => get_qr sessionId
  | GetSendMessage sessionId => get_send_message sessionId
  | PostSendMessage sessionId body => post_send_message sessionId body
  | PostLogout sessionId => post_logout sessionId
  end.

(** One request served: the response and the world it leaves. *)
Definition serve (req : Request) (w : World) : Response * World :=
  match route req w with
  | (Ok r, w') => (r, w')
  | (Throw, w') => (RespUnhandled, w')
  end.

(** What the event loop is given: a request; an event of a client whose
    encoding, if it starts one, calls back at once ([Raised]: [deliver]);
    an event of a client whose encoding stays pending ([RaisedOnly]:
    [raise]); or the callback of a pending encoding ([CalledBack]). *)
Inductive Input :=
| Http (req : Request)
| Raised (h : Handle) (ev : ClientEvent)
| RaisedOnly (h : Handle) (ev : ClientEvent)
| CalledBack (k : nat).

Definition step (w : World) (i : Input) : World :=
  match i with
  | Http req => (serve req w).2
  | Raised h ev => deliver h ev w
  | RaisedOnly h ev => raise h ev w
  | CalledBack k => call_back k w
  end.

(** The world after the inputs [ins], from the start of the process. *)
Definition run (ins : list Input) : World := fold_left step ins empty_world.

End Server.

(** ** The lifecycle of the specification

    The source keeps no state field.  The states and the table of
    transitions below are those of the specification; the state of a client
    is read off the events it has raised. *)

Inductive State :=
| Created
| AwaitingScan
| Authenticated
| Ready
| Failed
| Disconnected
| LoggedOut.

(** The rows of the table whose trigger is a client event; [None] where the
    table has no edge.  The row of the logout request, into [LoggedOut], is
    the removal of the record from the registry. *)
Definition spec_step (s : State) (ev : ClientEvent) : option State :=
  match s, ev with
  | Created, EvQr _ => Some AwaitingScan
  | AwaitingScan, EvQr _ => Some AwaitingScan
  | AwaitingScan, EvAuthenticated => Some Authenticated
  | Authenticated, EvReady => Some Ready
  | AwaitingScan, EvAuthFailure _ => Some Failed
  | Authenticated, EvAuthFailure _ => Some Failed
  | Ready, EvDisconnected _ => Some Disconnected
  | _, _ => None
  end.

Fixpoint spec_run (s : State) (evs : list ClientEvent) : option State :=
  match evs with
  | [] => Some s
  | ev :: evs' =>
      match spec_step s ev with
      | Some s' => spec_run s' evs'
      | None => None
      end
  end.

(** The events client [h] has raised, oldest first. *)
Fixpoint events_of (h : Handle) (tr : list Action) : list ClientEvent :=
  match tr with
  | [] => []
  | ActRaised h' ev :: tr' =>
      if decide (h' = h) then ev :: events_of h tr' else events_of h tr'
  | _ :: tr' => events_of h tr'
  end.

(** The state of the session of client [h], when its events followed the
    table. *)
Definition spec_state (h : Handle) (w : World) : option State :=
  spec_run Created (events_of h (trace w)).

(** ** A concrete outside world

    [LocalAuth] keeps the credentials of client [id] in
    [.wwebjs_auth/session-id], created when the client is initialised and
    removed by the [logout] of the client.  The QR encoder rejects the
    empty text and otherwise returns a data URL (the text itself stands for
    the image).  Sending, logging out and destroying succeed. *)

Definition localAuth_dir (clientId : string) : string :=
  ".wwebjs_auth/session-" +:+ clientId.

(** The disk without the directory [d] and what is under it. *)
Definition without_dir (d : string) (disk : gset string) : gset string :=
  filter (λ q, is_under d q = false) disk.

(** The disk after the [logout] of client [h] under [LocalAuth]. *)
Definition localAuth_logout (w : World) (h : nat) : gset string :=
  match clients w !! h with
  | Some env => without_dir (localAuth_dir (cl_sessionId env)) (fs w)
  | None => fs w
  end.

Definition ext_demo : External :=
  {| ext_randomBytes := λ _ n, replicate n x2a;
     ext_toDataURL := λ qr,
       if String.eqb qr "" then None else Some ("data:image/png;base64," +:+ qr);
     ext_authStore := localAuth_dir;
     ext_initialize := λ w h,
       match clients w !! h with
       | Some env => fs w ∪ {[ localAuth_dir (cl_sessionId env) ]}
       | None => fs w
       end;
     ext_sendMessage := λ _ _ _ _, true;
     ext_logout := λ w h, (true, localAuth_logout w h);
     ext_destroy := λ w _, (true, fs w) |}.

(** The same, with a client whose [logout] rejects. *)
Definition ext_stuck : External :=
  {| ext_randomBytes := ext_randomBytes ext_demo;
     ext_toDataURL := ext_toDataURL ext_demo;
     ext_authStore := ext_authStore ext_demo;
     ext_initialize := ext_initialize ext_demo;
     ext_sendMessage := ext_sendMessage ext_demo;
     ext_logout := λ w _, (false, fs w);
     ext_destroy := ext_destroy ext_demo |}.

(** The id [generateSessionId] returns under [ext_demo]. *)
Definition demo_id : string := "2a2a2a2a2a2a2a2a2a2a2a2a2a2a2a".

(** The record every call of [createNewClientSession] stores for client [h]. *)
Definition snapshot (h : Handle) : Session :=
  {| client := h; qrCodeData := ""; clientReady := false |}.

(** The trace entries that broadcast a [qr] notification. *)
Definition is_qr_emit (a : Action) : bool :=
  match a with
  | ActEmit (IoQr _ _) => true
  | _ => false
  end.

(** ** The event handlers as functions of the closure

    What one event does to the variables of the closure it is delivered to
    and what it broadcasts; [deliver_spec] below shows that [deliver] does
    exactly this. *)

Definition closure_after (ext : External) (ev : ClientEvent) (c : Closure) : Closure :=
  match ev with
  | EvQr qr =>
      match ext_toDataURL ext qr with
      | Some url => set_clientReady false (set_qrCodeData url c)
      | None => c
      end
  | EvReady => set_clientReady true (set_qrCodeData "" c)
  | EvAuthenticated => c
  | EvAuthFailure _ => set_qrCodeData "" c
  | EvDisconnected _ => set_clientReady false (set_qrCodeData "" c)
  end.

Definition emitted_by (ext : External) (sessionId : string) (ev : ClientEvent) : list Action :=
  match ev with
  | EvQr qr =>
      match ext_toDataURL ext qr with
      | Some url => [ActEmit (IoQr sessionId url)]
      | None => []
      end
  | EvReady => [ActEmit (IoReady sessionId)]
  | EvAuthenticated => [ActEmit (IoAuthenticated sessionId)]
  | EvAuthFailure msg => [ActEmit (IoAuthFailure sessionId msg)]
  | EvDisconnected reason => [ActEmit (IoDisconnected sessionId reason)]
  end.

(** The events whose handler assigns [''] to [qrCodeData]; [None] stands for
    a client that has raised nothing yet. *)
Definition clears_qr (last_event : option ClientEvent) : bool :=
  match last_event with
  | None | Some EvReady | Some (EvAuthFailure _) | Some (EvDisconnected _) => true
  | Some (EvQr _) | Some EvAuthenticated => false
  end.

(** The state every edge of the table with trigger [ev] leads to. *)
Definition state_after (ev : ClientEvent) : State :=
  match ev with
  | EvQr _ => AwaitingScan
  | EvReady => Ready
  | EvAuthenticated => Authenticated
  | EvAuthFailure _ => Failed
  | EvDisconnected _ => Disconnected
  end.

(** What holds of the closures in every world the server reaches: a client
    that does not exist has raised nothing, and a closure whose client last
    raised a clearing event (or nothing) has an empty [qrCodeData]. *)
Definition closures_inv (w : World) : Prop :=
  (∀ h, (length (clients w) ≤ h)%nat → events_of h (trace w) = [])
  ∧ (∀ h c, clients w !! h = Some c →
            clears_qr (last (events_of h (trace w))) = true → cl_qrCodeData c = "").

(** ** Vocabulary for the properties of the whole server *)

(** The digits [toString('hex')] writes. *)
Definition is_hex_digit (c : ascii) : bool :=
  ((48 <=? nat_of_ascii c) && (nat_of_ascii c <=? 57)
   || (97 <=? nat_of_ascii c) && (nat_of_ascii c <=? 102))%nat.

(** The value of a hexadecimal digit, to read an id back. *)
Definition hex_value (c : ascii) : nat :=
  let n := nat_of_ascii c in
  if (n <=? 57)%nat then n - 48 else n - 87.

(** The notifications broadcast so far, oldest first. *)
Fixpoint broadcasts (tr : list Action) : list IoEvent :=
  match tr with
  | [] => []
  | ActEmit e :: tr' => e :: broadcasts tr'
  | _ :: tr' => broadcasts tr'
  end.

(** The session id a notification carries. *)
Definition io_sessionId (e : IoEvent) : string :=
  match e with
  | IoQr sessionId _ => sessionId
  | IoReady sessionId => sessionId
  | IoAuthenticated sessionId => sessionId
  | IoAuthFailure sessionId _ => sessionId
  | IoDisconnected sessionId _ => sessionId
  end.

(** The inputs that leave or run a deferred callback. *)
Definition is_deferred (i : Input) : bool :=
  match i with
  | RaisedOnly _ (EvQr _) | CalledBack _ => true
  | _ => false
  end.

(** A run in which every encoding calls back before anything else
    happens. *)
Definition prompt (ins : list Input) : Prop :=
  Forall (λ i, is_deferred i = false) ins.

(** No path of the disk is the directory [d] or under it. *)
Definition dir_gone (d : string) (disk : gset string) : Prop :=
  ∀ q, q ∈ disk → is_under d q = false.

(** What [LocalAuth] does on behalf of the client: a [logout] that
    resolves has removed the directory of the client's id, and [destroy]
    creates nothing. *)
Definition localAuth_contract (ext : External) : Prop :=
  (∀ w h env, clients w !! h = Some env → (ext_logout ext w h).1 = true →
              dir_gone (ext_authStore ext (cl_sessionId env)) (ext_logout ext w h).2)
  ∧ (∀ w h, (ext_destroy ext w h).2 ⊆ fs w).

(** What holds of the pending encodings and of [qrCodeData] in every world
    the server reaches: a pending encoding is for a pairing code its client
    has raised, and a non-empty [qrCodeData] is the image of one. *)
Definition images_inv (ext : External) (w : World) : Prop :=
  (∀ h qr, (h, qr) ∈ pending w → EvQr qr ∈ events_of h (trace w))
  ∧ (∀ h c, clients w !! h = Some c → cl_qrCodeData c ≠ "" →
            ∃ qr, EvQr qr ∈ events_of h (trace w)
                  ∧ ext_toDataURL ext qr = Some (cl_qrCodeData c)).

Definition is_start (i : Input) : bool :=
  match i with
  | Http GetStartSession => true
  | _ => false
  end.

Definition is_rmdir (a : Action) : bool :=
  match a with
  | ActRmdirSync _ => true
  | _ => false
  end.

Definition is_logout_call (a : Action) : bool :=
  match a with
  | ActLogout _ => true
  | _ => false
  end.

(** A client whose [logout] rejects the first time it is called and
    resolves from then on. *)
Definition ext_retry : External :=
  {| ext_randomBytes := ext_randomBytes ext_demo;
     ext_toDataURL := ext_toDataURL ext_demo;
     ext_authStore := ext_authStore ext_demo;
     ext_initialize := ext_initialize ext_demo;
     ext_sendMessage := ext_sendMessage ext_demo;
     ext_logout := λ w h,
       if existsb is_logout_call (trace w)
       then (true, localAuth_logout w h)
       else (false, fs w);
     ext_destroy := ext_destroy ext_demo |}.

(** A second outside world: the random bytes differ from one client to the
    next, and sending fails. *)
Definition ext_other : External :=
  {| ext_randomBytes := λ w n,
       replicate n (default x00 (Byte.of_nat (length (clients w))));
     ext_toDataURL := ext_toDataURL ext_demo;
     ext_authStore := ext_authStore ext_demo;
     ext_initialize := ext_initialize ext_demo;
     ext_sendMessage := λ _ _ _ _, false;
     ext_logout := ext_logout ext_demo;
     ext_destroy := ext_destroy ext_demo |}.

(** What holds of the registry in every world the server reaches: the
    client of the record stored under an id is the one whose handlers
    captured that id. *)
Definition registry_inv (w : World) : Prop :=
  ∀ sessionId s, sessions w !! sessionId = Some s →
    ∃ c, clients w !! client s = Some c ∧ cl_sessionId c = sessionId.

(** What holds of [clientReady] in every closure: it is true only when the
    client has raised [ready] and its last event is not [disconnected]. *)
Definition ready_inv (w : World) : Prop :=
  ∀ h c, clients w !! h = Some c → cl_clientReady c = true →
    EvReady ∈ events_of h (trace w)
    ∧ ∀ reason, last (events_of h (trace w)) ≠ Some (EvDisconnected reason).

(** ** Basic facts *)

Ltac unfold_prims :=
  unfold get_session, store_session, delete_session, io_emit, update_closure,
    fs_existsSync, fs_rmdirSync, new_Client, client_initialize, client_sendMessage,
    client_logout, client_destroy, generateSessionId, qrcode_toDataURL, method,
    bind, ret, try_catch, log, set_sessions, set_clients, set_fs, set_pending in *.

Ltac unfold_handlers :=
  unfold serve, route, get_start_session, createNewClientSession, get_qr,
    get_send_message, post_send_message, post_logout, prop_sessionDir,
    prop_client, prop_qrCodeData, prop_clientReady in *.

Ltac unfold_events :=
  unfold client_on, on_qr, qr_callback, on_ready, on_authenticated, on_auth_failure,
    on_disconnected in *.

Lemma generated_demo_id w :
  generateSessionId ext_demo w = (Ok demo_id, w).
Proof. reflexivity. Qed.

Lemma toString_hex_length bs :
  String.length (toString_hex bs) = (2 * length bs)%nat.
Proof. induction bs as [|b bs IH]; simpl; [done|]. rewrite IH. lia. Qed.

Lemma is_digit_spec c :
  is_digit c = true ↔ (48 ≤ nat_of_ascii c ≤ 57)%nat.
Proof.
  unfold is_digit. rewrite andb_true_iff, !Nat.leb_le. tauto.
Qed.

Lemma replace_nondigits_filter s :
  list_ascii_of_string (replace_nondigits s)
  = filter (λ c, is_digit c = true) (list_ascii_of_string s).
Proof.
  induction s as [|c r IH]; simpl; [done|].
  rewrite filter_cons. destruct (is_digit c) eqn:Hc.
  - rewrite decide_True by done. simpl. by rewrite IH.
  - rewrite decide_False by (by intros ?). done.
Qed.

Lemma replace_nondigits_digits s :
  Forall (λ c, is_digit c = true) (list_ascii_of_string (replace_nondigits s)).
Proof.
  rewrite replace_nondigits_filter. apply Forall_forall.
  intros c Hc. by apply list_elem_of_filter in Hc as [? _].
Qed.

Lemma replace_nondigits_idem s :
  replace_nondigits (replace_nondigits s) = replace_nondigits s.
Proof.
  induction s as [|c r IH]; simpl; [done|].
  destruct (is_digit c) eqn:Hc; simpl; [rewrite Hc|]; by rewrite IH.
Qed.

(** ** Sending a message *)

Section Sending.

Variable ext : External.

(** What POST /send-message does once the record is found and both fields
    are present: one call of [client.sendMessage], whatever the record
    says about readiness. *)
Lemma post_send_message_delegates w sessionId s n m :
  sessions w !! sessionId = Some s →
  n ≠ "" → m ≠ "" →
  serve ext (PostSendMessage sessionId (mkBody (Some n) (Some m))) w
  = (if ext_sendMessage ext w (client s) (chatId_of n) m
     then RespRedirect ("/qr/" +:+ sessionId)
     else RespSend 500 "Failed to send message.",
     log (ActSendMessage (client s) (chatId_of n) m) w).
Proof.
  intros Hs Hn Hm. unfold_handlers. unfold_prims. rewrite Hs. simpl.
  apply String.eqb_neq in Hn, Hm. rewrite Hn, Hm. simpl.
  by destruct (ext_sendMessage _ _ _ _ _).
Qed.

(** What POST /send-message answers without calling a client: 404 when
    [sessions[sessionId]] is [undefined], that is, for an id that is no
    own property and no member of [Object.prototype]; 400 when a record is
    there but [number] or [message] is missing or empty; for the name of
    an inherited member, 400 in the same case and else 500, since the
    member has no [client].  The world is left exactly as it was. *)
Lemma post_send_message_rejects w sessionId body :
  (sessions w !! sessionId = None →
   serve ext (PostSendMessage sessionId body) w
   = (if is_inherited sessionId
      then if is_falsy (number body) || is_falsy (message body)
           then RespJson 400 "error" "Please provide both number and message."
           else RespSend 500 "Failed to send message."
      else RespSend 404 "Session not found.", w))
  ∧ (is_Some (sessions w !! sessionId) →
     is_falsy (number body) = true ∨ is_falsy (message body) = true →
     serve ext (PostSendMessage sessionId body) w
     = (RespJson 400 "error" "Please provide both number and message.", w)).
Proof.
  split.
  - intros Hs. unfold_handlers. unfold_prims. rewrite Hs.
    destruct (is_inherited sessionId); simpl; [|done].
    by destruct (is_falsy (number body) || is_falsy (message body)).
  - intros [s Hs] Hmiss. unfold_handlers. unfold_prims. rewrite Hs. simpl.
    assert (is_falsy (number body) || is_falsy (message body) = true) as ->; [|done].
    apply orb_true_iff. tauto.
Qed.

(** C6: the address a message is sent to is the digits of [number], in
    their order and nothing else, followed by [@c.us]; it is the address
    handed to the client; and [+62 812-3456] becomes [628123456@c.us]. *)
Theorem chatId_normalized w sessionId s n m :
  sessions w !! sessionId = Some s →
  n ≠ "" → m ≠ "" →
  trace (serve ext (PostSendMessage sessionId (mkBody (Some n) (Some m))) w).2
  = trace w ++ [ActSendMessage (client s) (chatId_of n) m]
  ∧ (∃ digits,
       chatId_of n = digits +:+ "@c.us"
       ∧ Forall (λ c, is_digit c = true) (list_ascii_of_string digits)
       ∧ list_ascii_of_string digits
         = filter (λ c, is_digit c = true) (list_ascii_of_string n))
  ∧ chatId_of "+62 812-3456" = "628123456@c.us".
Proof.
  intros Hs Hn Hm. split; [|split].
  - by rewrite (post_send_message_delegates _ _ _ _ _ Hs Hn Hm).
  - exists (replace_nondigits n). split; [done|].
    split; [apply replace_nondigits_digits | apply replace_nondigits_filter].
  - reflexivity.
Qed.

End Sending.

(** ** Logging out *)

Section Logout.

Variable ext : External.

(** POST /logout for an id that is no own property of [sessions]: 404, or
    500 for the name of an inherited member, which has no [client] to log
    out; nothing changes. *)
Lemma post_logout_no_record w sessionId :
  sessions w !! sessionId = None →
  serve ext (PostLogout sessionId) w
  = (if is_inherited sessionId
     then RespJson 500 "error" "Failed to log out."
     else RespSend 404 "Session not found.", w).
Proof.
  intros Hs. unfold_handlers. unfold_prims. rewrite Hs.
  by destruct (is_inherited sessionId).
Qed.

(** The three ways POST /logout ends for an id of the registry. *)
Lemma post_logout_cases w sessionId s :
  sessions w !! sessionId = Some s →
  let h := client s in
  let w1 := log (ActLogout h) (set_fs (ext_logout ext w h).2 w) in
  let w2 := log (ActDestroy h) (set_fs (ext_destroy ext w1 h).2 w1) in
  serve ext (PostLogout sessionId) w
  = if (ext_logout ext w h).1
    then if (ext_destroy ext w1 h).1
         then (RespJson 200 "success" "Logged out and session cleared. Scan a new QR code.",
               log (ActDeleteSession sessionId)
                 (set_sessions (delete sessionId) (log (ActExistsSync None) w2)))
         else (RespJson 500 "error" "Failed to log out.", w2)
    else (RespJson 500 "error" "Failed to log out.", w1).
Proof.
  intros Hs. unfold_handlers. unfold_prims. rewrite Hs. simpl.
  destruct (ext_logout ext w (client s)) as [[] d1]; simpl; [|done].
  by destruct (ext_destroy ext _ (client s)) as [[] d2].
Qed.

(** C8: on a known id, POST /logout calls [client.logout], then
    [client.destroy], then looks for the session directory, and deletes the
    registry entry only after these, as its last action before answering
    200; when [logout] or [destroy] throws it answers the one 500 message,
    deletes nothing and leaves the registry and the closures as they were,
    so that the same request can be made again. *)
Theorem post_logout_deletes_last w sessionId s :
  sessions w !! sessionId = Some s →
  let h := client s in
  let w1 := (client_logout ext h w).2 in
  let torn_down := (ext_logout ext w h).1 && (ext_destroy ext w1 h).1 in
  let r := serve ext (PostLogout sessionId) w in
  clients r.2 = clients w
  ∧ if torn_down
    then r.1 = RespJson 200 "success" "Logged out and session cleared. Scan a new QR code."
         ∧ sessions r.2 = delete sessionId (sessions w)
         ∧ trace r.2 = trace w ++ [ActLogout h; ActDestroy h; ActExistsSync None;
                                   ActDeleteSession sessionId]
    else r.1 = RespJson 500 "error" "Failed to log out."
         ∧ sessions r.2 = sessions w
         ∧ trace r.2 = trace w ++ (if (ext_logout ext w h).1
                                   then [ActLogout h; ActDestroy h]
                                   else [ActLogout h])
         ∧ (serve ext (PostLogout sessionId) r.2).1 ≠ RespSend 404 "Session not found.".
Proof.
  intros Hs h w1 torn_down r. subst r torn_down.
  rewrite (post_logout_cases _ _ _ Hs). fold h.
  assert (w1 = log (ActLogout h) (set_fs (ext_logout ext w h).2 w)) as Hw1.
  { subst w1. unfold client_logout. by destruct (ext_logout ext w h).1. }
  rewrite <- Hw1.
  destruct (ext_logout ext w h).1 eqn:H1; simpl.
  - destruct (ext_destroy ext w1 h).1 eqn:H2; simpl.
    + rewrite Hw1. simpl. by rewrite <- !app_assoc.
    + split; [by rewrite Hw1|]. split; [done|]. split; [by rewrite Hw1|].
      split; [rewrite Hw1; simpl; by rewrite <- !app_assoc|].
      assert (sessions (log (ActDestroy h) (set_fs (ext_destroy ext w1 h).2 w1))
                !! sessionId = Some s) as Hs2 by (by rewrite Hw1).
      rewrite (post_logout_cases _ _ _ Hs2).
      repeat match goal with |- context [if ?b then _ else _] => destruct b end; done.
  - split; [by rewrite Hw1|]. split; [done|]. split; [by rewrite Hw1|].
    split; [by rewrite Hw1|].
    assert (sessions w1 !! sessionId = Some s) as Hs1 by (by rewrite Hw1).
    rewrite (post_logout_cases _ _ _ Hs1).
    repeat match goal with |- context [if ?b then _ else _] => destruct b end; done.
Qed.

(** POST /logout never removes a directory itself: the disk it leaves is the
    one the client's own [logout] and [destroy] left. *)
Lemma post_logout_no_rmdir w sessionId p :
  ActRmdirSync p ∈ trace (serve ext (PostLogout sessionId) w).2 →
  ActRmdirSync p ∈ trace w.
Proof.
  destruct (sessions w !! sessionId) as [s|] eqn:Hs.
  - rewrite (post_logout_cases _ _ _ Hs).
    repeat match goal with |- context [if ?b then _ else _] => destruct b end;
      simpl; rewrite ?elem_of_app, ?list_elem_of_singleton; intuition discriminate.
  - rewrite (post_logout_no_record _ _ Hs). done.
Qed.

End Logout.

(** ** Runs of the server *)

Section Runs.

Variable ext : External.

Lemma run_snoc ins i : run ext (ins ++ [i]) = step ext (run ext ins) i.
Proof. unfold run. by rewrite fold_left_app. Qed.

Lemma events_of_app h tr1 tr2 :
  events_of h (tr1 ++ tr2) = events_of h tr1 ++ events_of h tr2.
Proof.
  induction tr1 as [|a tr1 IH]; simpl; [done|].
  destruct a; try done. case_decide; simpl; by rewrite IH.
Qed.

(** A pairing code only leaves its encoding pending. *)
Lemma raise_qr_spec h qr w env :
  clients w !! h = Some env →
  raise h (EvQr qr) w
  = set_pending (λ l, l ++ [(h, qr)]) (log (ActRaised h (EvQr qr)) w).
Proof. intros Hh. unfold raise. by rewrite Hh. Qed.

(** The other events have no callback: raising them is delivering them. *)
Lemma raise_other h ev w :
  (∀ qr, ev ≠ EvQr qr) → raise h ev w = deliver ext h ev w.
Proof. intros Hev. destruct ev as [qr| | | |]; [by destruct (Hev qr)|done..]. Qed.

Lemma raise_no_client h ev w : clients w !! h = None → raise h ev w = w.
Proof. intros Hh. unfold raise. by rewrite Hh. Qed.

(** The callback of a pending encoding does to the closure of its client
    what [closure_after] says of the pairing code. *)
Lemma call_back_spec k w h qr env :
  pending w !! k = Some (h, qr) →
  clients w !! h = Some env →
  call_back ext k w
  = {| sessions := sessions w;
       clients := alter (closure_after ext (EvQr qr)) h (clients w);
       fs := fs w;
       trace := trace w ++ emitted_by ext (cl_sessionId env) (EvQr qr);
       pending := delete k (pending w) |}.
Proof.
  intros Hk Hh. unfold call_back. rewrite Hk. simpl. rewrite Hh.
  unfold_events. unfold_prims. unfold closure_after, emitted_by. simpl.
  destruct (ext_toDataURL ext qr) as [url|]; simpl.
  - by rewrite list_alter_alter_eq.
  - rewrite list_alter_id by done. by rewrite app_nil_r.
Qed.

Lemma call_back_no_client k w h qr :
  pending w !! k = Some (h, qr) →
  clients w !! h = None →
  call_back ext k w = set_pending (delete k) w.
Proof. intros Hk Hh. unfold call_back. rewrite Hk. simpl. by rewrite Hh. Qed.

Lemma call_back_none k w : pending w !! k = None → call_back ext k w = w.
Proof. intros Hk. unfold call_back. by rewrite Hk. Qed.

(** [deliver] runs the handler of the event, and the callback of a pairing
    code, on the closure of the client, and leaves nothing pending. *)
Lemma deliver_spec h ev w env :
  clients w !! h = Some env →
  deliver ext h ev w
  = {| sessions := sessions w;
       clients := alter (closure_after ext ev) h (clients w);
       fs := fs w;
       trace := trace w ++ ActRaised h ev :: emitted_by ext (cl_sessionId env) ev;
       pending := pending w |}.
Proof.
  intros Hh. destruct ev as [qr| | |msg|reason]; unfold deliver.
  - rewrite (raise_qr_spec _ _ _ _ Hh).
    rewrite (call_back_spec _ _ h qr env); simpl;
      [|by apply list_lookup_middle|done].
    by rewrite delete_middle, app_nil_r, <- app_assoc.
  - unfold raise. rewrite Hh. unfold_events. unfold_prims. simpl.
    by rewrite list_alter_alter_eq, <- app_assoc.
  - unfold raise. rewrite Hh. unfold_events. unfold_prims. simpl.
    rewrite list_alter_id by done. by rewrite <- app_assoc.
  - unfold raise. rewrite Hh. unfold_events. unfold_prims. simpl.
    by rewrite <- app_assoc.
  - unfold raise. rewrite Hh. unfold_events. unfold_prims. simpl.
    by rewrite list_alter_alter_eq, <- app_assoc.
Qed.

Lemma deliver_no_client h ev w : clients w !! h = None → deliver ext h ev w = w.
Proof.
  intros Hh. destruct ev; unfold deliver; rewrite (raise_no_client _ _ _ Hh); try done.
  apply call_back_none. apply lookup_ge_None. done.
Qed.

Lemma deliver_sessions h ev w : sessions (deliver ext h ev w) = sessions w.
Proof.
  destruct (clients w !! h) as [env|] eqn:Hh.
  - by rewrite (deliver_spec _ _ _ _ Hh).
  - by rewrite (deliver_no_client _ _ _ Hh).
Qed.

Lemma raise_sessions h ev w : sessions (raise h ev w) = sessions w.
Proof.
  destruct (clients w !! h) as [env|] eqn:Hh; [|by rewrite (raise_no_client _ _ _ Hh)].
  destruct ev as [qr| | | |];
    [by rewrite (raise_qr_spec _ _ _ _ Hh)|rewrite raise_other by done..];
    apply deliver_sessions.
Qed.

Lemma call_back_sessions k w : sessions (call_back ext k w) = sessions w.
Proof.
  destruct (pending w !! k) as [[h qr]|] eqn:Hk; [|by rewrite (call_back_none _ _ Hk)].
  destruct (clients w !! h) as [env|] eqn:Hh.
  - by rewrite (call_back_spec _ _ _ _ _ Hk Hh).
  - by rewrite (call_back_no_client _ _ _ _ Hk Hh).
Qed.

(** [createNewClientSession] never fails and never looks at the registry. *)
Lemma createNewClientSession_spec sessionId w :
  let h := length (clients w) in
  createNewClientSession ext sessionId w
  = (Ok sessionId,
     {| sessions := <[sessionId := snapshot h]> (sessions w);
        clients := clients w ++ [mkClosure sessionId "" false];
        fs := ext_initialize ext
                (log (ActNewClient h sessionId)
                   (set_clients (λ l, l ++ [mkClosure sessionId "" false]) w)) h;
        trace := trace w ++ [ActNewClient h sessionId; ActInitialize h;
                             ActStoreSession sessionId];
        pending := pending w |}).
Proof.
  unfold createNewClientSession. unfold_prims. simpl.
  by rewrite <- !app_assoc.
Qed.

(** The cases of a handler that looks up [id]: a record, an inherited
    member or nothing, and then every branch the handler takes. *)
Ltac case_request w id :=
  unfold_handlers; unfold_prims;
  destruct (sessions w !! id) as [?|]; simpl;
  [|destruct (is_inherited id); simpl];
  repeat match goal with
         | |- context [if ?b then _ else _] => destruct b; simpl
         end.

(** A request leaves every record of the registry as it was, removes one,
    or stores a new snapshot. *)
Lemma serve_sessions req w sessionId s :
  sessions (serve ext req w).2 !! sessionId = Some s →
  sessions w !! sessionId = Some s ∨ s = snapshot (length (clients w)).
Proof.
  destruct req as [|id|id|id body|id].
  - unfold serve, route, get_start_session, bind, generateSessionId.
    rewrite createNewClientSession_spec. simpl.
    intros [[_ <-]|[_ ?]]%lookup_insert_Some; auto.
  - case_request w id; auto.
  - case_request w id; auto.
  - case_request w id; auto.
  - case_request w id; auto. intros [_ ?]%lookup_delete_Some. auto.
Qed.

(** Every record of the registry is the snapshot taken when it was created. *)
Lemma run_sessions ins sessionId s :
  sessions (run ext ins) !! sessionId = Some s → ∃ h, s = snapshot h.
Proof.
  revert sessionId s. induction ins as [|i ins IH] using rev_ind; intros id s.
  - unfold run. simpl. by rewrite lookup_empty.
  - rewrite run_snoc. destruct i as [req|h ev|h ev|k]; simpl.
    + intros [H|H]%serve_sessions; eauto.
    + rewrite deliver_sessions. eauto.
    + rewrite raise_sessions. eauto.
    + rewrite call_back_sessions. eauto.
Qed.

(** A request raises no client event. *)
Lemma serve_events req w h :
  events_of h (trace (serve ext req w).2) = events_of h (trace w).
Proof.
  destruct req as [|id|id|id body|id].
  - unfold serve, route, get_start_session, bind, generateSessionId.
    rewrite createNewClientSession_spec. simpl.
    rewrite events_of_app. simpl. by rewrite app_nil_r.
  - by case_request w id.
  - by case_request w id.
  - case_request w id; rewrite ?events_of_app; simpl; by rewrite ?app_nil_r.
  - case_request w id; rewrite ?events_of_app; simpl; by rewrite ?app_nil_r.
Qed.

(** A request starts no encoding and runs no callback. *)
Lemma serve_pending req w : pending (serve ext req w).2 = pending w.
Proof.
  destruct req as [|id|id|id body|id].
  - unfold serve, route, get_start_session, bind, generateSessionId.
    by rewrite createNewClientSession_spec.
  - by case_request w id.
  - by case_request w id.
  - by case_request w id.
  - by case_request w id.
Qed.

(** Every request is answered: no handler lets an exception escape. *)
Lemma serve_answers req w : (serve ext req w).1 ≠ RespUnhandled.
Proof.
  destruct req as [|id|id|id body|id].
  - unfold serve, route, get_start_session, bind, generateSessionId.
    by rewrite createNewClientSession_spec.
  - by case_request w id.
  - by case_request w id.
  - by case_request w id.
  - by case_request w id.
Qed.

(** A request leaves the closures alone, or adds one with fresh variables. *)
Lemma serve_clients req w :
  clients (serve ext req w).2 = clients w
  ∨ ∃ sessionId, clients (serve ext req w).2 = clients w ++ [mkClosure sessionId "" false].
Proof.
  destruct req as [|id|id|id body|id].
  - unfold serve, route, get_start_session, bind, generateSessionId.
    rewrite createNewClientSession_spec. simpl. eauto.
  - case_request w id; auto.
  - case_request w id; auto.
  - case_request w id; auto.
  - case_request w id; auto.
Qed.

Lemma serve_closures_inv req w :
  closures_inv w → closures_inv (serve ext req w).2.
Proof.
  intros [Hfresh Hclear]. split.
  - intros h Hh. rewrite serve_events. apply Hfresh.
    destruct (serve_clients req w) as [Hc|[id Hc]]; rewrite Hc in Hh;
      [done|]. rewrite length_app in Hh. simpl in Hh. lia.
  - intros h c Hc. rewrite serve_events.
    destruct (serve_clients req w) as [Hc'|[id Hc']]; rewrite Hc' in Hc;
      [by apply Hclear|].
    destruct (decide (h < length (clients w))%nat) as [Hlt|Hge].
    + rewrite lookup_app_l in Hc by done. by apply Hclear.
    + rewrite lookup_app_r in Hc by lia.
      apply list_lookup_singleton_Some in Hc as [_ <-]. done.
Qed.

Lemma closure_after_sessionId_aux ev c :
  cl_sessionId (closure_after ext ev c) = cl_sessionId c.
Proof. destruct ev as [qr| | | |]; simpl; try done. by destruct (ext_toDataURL ext qr). Qed.

Lemma closure_after_clears ev c :
  clears_qr (Some ev) = true → cl_qrCodeData (closure_after ext ev c) = "".
Proof. by destruct ev. Qed.

Lemma events_of_delivery h0 ev sessionId h :
  events_of h (ActRaised h0 ev :: emitted_by ext sessionId ev)
  = if decide (h0 = h) then [ev] else [].
Proof.
  simpl. destruct ev as [qr| | | |]; simpl;
    [destruct (ext_toDataURL ext qr)|..]; by case_decide.
Qed.

Lemma events_of_emitted sessionId ev h :
  events_of h (emitted_by ext sessionId ev) = [].
Proof.
  destruct ev as [qr| | | |]; simpl; [by destruct (ext_toDataURL ext qr)|done..].
Qed.

Lemma deliver_closures_inv h0 ev w :
  closures_inv w → closures_inv (deliver ext h0 ev w).
Proof.
  intros [Hfresh Hclear].
  destruct (clients w !! h0) as [env|] eqn:Hh0;
    [|by rewrite (deliver_no_client _ _ _ Hh0)].
  rewrite (deliver_spec _ _ _ _ Hh0).
  split; simpl.
  - intros h Hh. rewrite length_alter in Hh.
    rewrite events_of_app, events_of_delivery, Hfresh by done.
    case_decide; [|done]. subst h. apply lookup_lt_Some in Hh0. lia.
  - intros h c Hc. rewrite events_of_app, events_of_delivery.
    destruct (decide (h0 = h)) as [<-|Hne].
    + rewrite list_lookup_alter, decide_True, Hh0 in Hc by done.
      simpl in Hc. injection Hc as <-.
      rewrite last_snoc. apply closure_after_clears.
    + rewrite list_lookup_alter_ne in Hc by done.
      rewrite app_nil_r. by apply Hclear.
Qed.

(** In a run whose encodings call back at once, a closure whose client
    last raised a clearing event, or nothing, has an empty [qrCodeData]. *)
Lemma run_closures_inv ins : prompt ins → closures_inv (run ext ins).
Proof.
  induction ins as [|i ins IH] using rev_ind; intros Hp.
  - split; [done|]. intros h c. unfold run. simpl. by rewrite lookup_nil.
  - apply Forall_app in Hp as [Hp Hi]. apply Forall_inv in Hi. simpl in Hi.
    specialize (IH Hp). rewrite run_snoc. destruct i as [req|h ev|h ev|k]; simpl.
    + by apply serve_closures_inv.
    + by apply deliver_closures_inv.
    + rewrite raise_other; [by apply deliver_closures_inv|].
      intros qr ->. discriminate Hi.
    + discriminate Hi.
Qed.

(** Along the edges of the table, the state is the target of the last event. *)
Lemma spec_run_last s0 evs s :
  spec_run s0 evs = Some s →
  s = match last evs with
      | Some ev => state_after ev
      | None => s0
      end.
Proof.
  revert s0. induction evs as [|ev evs IH]; intros s0; simpl.
  - by intros [= ->].
  - destruct (spec_step s0 ev) as [s1|] eqn:Hstep; [|done].
    intros Hrun. apply IH in Hrun.
    assert (s1 = state_after ev) as ->.
    { destruct s0, ev; simpl in Hstep; simpl; congruence. }
    destruct evs as [|ev' evs]; [done|].
    change (last (ev :: ev' :: evs)) with (last (ev' :: evs)).
    destruct (last (ev' :: evs)) eqn:Hlast; [done|].
    by apply last_None in Hlast.
Qed.

End Runs.

(** ** The pairing code *)

Section Pairing.

Variable ext : External.

Lemma broadcasts_app tr1 tr2 :
  broadcasts (tr1 ++ tr2) = broadcasts tr1 ++ broadcasts tr2.
Proof.
  induction tr1 as [|a tr1 IH]; simpl; [done|]. destruct a; simpl; by rewrite ?IH.
Qed.

Lemma closure_after_image ev c :
  cl_qrCodeData (closure_after ext ev c)
  = match ev with
    | EvQr qr => default (cl_qrCodeData c) (ext_toDataURL ext qr)
    | EvAuthenticated => cl_qrCodeData c
    | EvReady | EvAuthFailure _ | EvDisconnected _ => ""
    end.
Proof. destruct ev as [qr| | | |]; simpl; try done. by destruct (ext_toDataURL ext qr). Qed.

Lemma serve_images_inv req w : images_inv ext w → images_inv ext (serve ext req w).2.
Proof.
  intros [Hpend Himg]. split.
  - intros h qr. rewrite serve_pending, serve_events. apply Hpend.
  - intros h c Hc. rewrite serve_events.
    destruct (serve_clients ext req w) as [Hc'|[id Hc']]; rewrite Hc' in Hc;
      [by apply Himg|].
    destruct (decide (h < length (clients w))%nat) as [Hlt|Hge].
    + rewrite lookup_app_l in Hc by done. by apply Himg.
    + rewrite lookup_app_r in Hc by lia.
      apply list_lookup_singleton_Some in Hc as [_ <-]. done.
Qed.

Lemma deliver_images_inv h0 ev w : images_inv ext w → images_inv ext (deliver ext h0 ev w).
Proof.
  intros [Hpend Himg].
  destruct (clients w !! h0) as [env|] eqn:Hh0;
    [|by rewrite (deliver_no_client _ _ _ _ Hh0)].
  rewrite (deliver_spec _ _ _ _ _ Hh0). split; simpl.
  - intros h qr Hin. rewrite events_of_app, elem_of_app. left. by apply Hpend.
  - intros h c Hc. rewrite events_of_app, events_of_delivery.
    destruct (decide (h0 = h)) as [<-|Hne].
    + rewrite list_lookup_alter, decide_True, Hh0 in Hc by done.
      simpl in Hc. injection Hc as <-. rewrite closure_after_image.
      destruct ev as [qr| | | |]; try done.
      * destruct (ext_toDataURL ext qr) as [url|] eqn:Hurl; simpl.
        -- intros _. exists qr. split; [|done].
           apply elem_of_app. right. by apply list_elem_of_singleton.
        -- intros Hne. destruct (Himg h0 env Hh0 Hne) as (q & Hq & Hu).
           exists q. split; [|done]. apply elem_of_app. by left.
      * intros Hne. destruct (Himg h0 env Hh0 Hne) as (q & Hq & Hu).
        exists q. split; [|done]. apply elem_of_app. by left.
    + rewrite list_lookup_alter_ne in Hc by done. rewrite app_nil_r. by apply Himg.
Qed.

Lemma raise_images_inv h0 ev w : images_inv ext w → images_inv ext (raise h0 ev w).
Proof.
  intros Hinv.
  destruct ev as [qr| | | |];
    [|rewrite (raise_other ext) by done; by apply deliver_images_inv..].
  destruct Hinv as [Hpend Himg].
  destruct (clients w !! h0) as [env|] eqn:Hh0;
    [|by rewrite (raise_no_client _ _ _ Hh0)].
  rewrite (raise_qr_spec _ _ _ _ Hh0). split; simpl.
  - intros h q [Hin|Hin]%elem_of_app; rewrite events_of_app, elem_of_app.
    + left. by apply Hpend.
    + apply list_elem_of_singleton in Hin as [= -> ->]. right. simpl.
      rewrite decide_True by done. by apply list_elem_of_singleton.
  - intros h c Hc Hne. destruct (Himg h c Hc Hne) as (q & Hq & Hu).
    exists q. split; [|done]. rewrite events_of_app, elem_of_app. by left.
Qed.

Lemma call_back_images_inv k w : images_inv ext w → images_inv ext (call_back ext k w).
Proof.
  intros [Hpend Himg].
  destruct (pending w !! k) as [[h0 qr]|] eqn:Hk; [|by rewrite (call_back_none _ _ _ Hk)].
  assert (EvQr qr ∈ events_of h0 (trace w)) as Hraised
    by (by apply Hpend, (list_elem_of_lookup_2 _ k)).
  destruct (clients w !! h0) as [env|] eqn:Hh0.
  - rewrite (call_back_spec _ _ _ _ _ _ Hk Hh0). split; cbn [trace clients pending].
    + intros h q Hin%list_elem_of_delete_inv.
      rewrite events_of_app, elem_of_app. left. by apply Hpend.
    + intros h c Hc. rewrite events_of_app, events_of_emitted, app_nil_r.
      destruct (decide (h0 = h)) as [<-|Hne].
      * rewrite list_lookup_alter, decide_True, Hh0 in Hc by done.
        change (Some (closure_after ext (EvQr qr) env) = Some c) in Hc.
        injection Hc as <-.
        destruct (ext_toDataURL ext qr) as [url|] eqn:Hurl; simpl; [eauto|].
        by apply Himg.
      * rewrite list_lookup_alter_ne in Hc by done. by apply Himg.
  - rewrite (call_back_no_client _ _ _ _ _ Hk Hh0). split; simpl.
    + intros h q Hin%list_elem_of_delete_inv. by apply Hpend.
    + done.
Qed.

Lemma run_images_inv ins : images_inv ext (run ext ins).
Proof.
  induction ins as [|i ins IH] using rev_ind.
  - split; [intros h qr Hin; by apply elem_of_nil in Hin|].
    intros h c. unfold run. simpl. by rewrite lookup_nil.
  - rewrite run_snoc. destruct i as [req|h ev|h ev|k]; simpl.
    + by apply serve_images_inv.
    + by apply deliver_images_inv.
    + by apply raise_images_inv.
    + by apply call_back_images_inv.
Qed.

(** C3 (as amended): for the [qrCodeData] variable of a client's closure.
    The handlers of [ready], [auth_failure] and [disconnected] clear it;
    the handlers of [authenticated] and of a pairing code leave it as it
    is; the callback of the encoder replaces it by the image when the
    encoding succeeded and leaves it as it is when the encoding failed.
    After every request, event and callback, a non-empty [qrCodeData] is
    the image of a pairing code the client has raised; and when every
    encoding of the run called back at once and the client's events
    followed the table, it means the state is AwaitingScan or
    Authenticated. *)
Theorem qrCodeData_cleared_outside_pairing ins h c :
  clients (run ext ins) !! h = Some c →
  (cl_qrCodeData c ≠ "" →
   ∃ qr, EvQr qr ∈ events_of h (trace (run ext ins))
         ∧ ext_toDataURL ext qr = Some (cl_qrCodeData c))
  ∧ (prompt ins →
     ∀ s, spec_state h (run ext ins) = Some s →
          cl_qrCodeData c ≠ "" → s = AwaitingScan ∨ s = Authenticated)
  ∧ (∀ ev, ∃ c',
        clients (raise h ev (run ext ins)) !! h = Some c'
        ∧ cl_qrCodeData c'
          = match ev with
            | EvQr _ | EvAuthenticated => cl_qrCodeData c
            | EvReady | EvAuthFailure _ | EvDisconnected _ => ""
            end)
  ∧ (∀ k qr, pending (run ext ins) !! k = Some (h, qr) →
        ∃ c', clients (call_back ext k (run ext ins)) !! h = Some c'
              ∧ cl_qrCodeData c' = default (cl_qrCodeData c) (ext_toDataURL ext qr))
  ∧ (∀ ev, ∃ c',
        clients (deliver ext h ev (run ext ins)) !! h = Some c'
        ∧ cl_qrCodeData c'
          = match ev with
            | EvQr qr => default (cl_qrCodeData c) (ext_toDataURL ext qr)
            | EvAuthenticated => cl_qrCodeData c
            | EvReady | EvAuthFailure _ | EvDisconnected _ => ""
            end).
Proof.
  intros Hc. split; [|split; [|split; [|split]]].
  - destruct (run_images_inv ins) as [_ Himg]. by apply Himg.
  - intros Hp s Hs Hqr. unfold spec_state in Hs. apply spec_run_last in Hs.
    destruct (run_closures_inv ext ins Hp) as [_ Hclear].
    specialize (Hclear h c Hc).
    destruct (last (events_of h (trace (run ext ins)))) as [[]|];
      simpl in *; subst s; auto; by destruct Hqr; apply Hclear.
  - intros ev. destruct ev as [qr| | | |].
    + rewrite (raise_qr_spec _ _ _ _ Hc). simpl. eauto.
    + rewrite (raise_other ext) by done. rewrite (deliver_spec _ _ _ _ _ Hc). simpl.
      rewrite list_lookup_alter, decide_True, Hc by done. simpl. eauto.
    + rewrite (raise_other ext) by done. rewrite (deliver_spec _ _ _ _ _ Hc). simpl.
      rewrite list_lookup_alter, decide_True, Hc by done. simpl. eauto.
    + rewrite (raise_other ext) by done. rewrite (deliver_spec _ _ _ _ _ Hc). simpl.
      rewrite list_lookup_alter, decide_True, Hc by done. simpl. eauto.
    + rewrite (raise_other ext) by done. rewrite (deliver_spec _ _ _ _ _ Hc). simpl.
      rewrite list_lookup_alter, decide_True, Hc by done. simpl. eauto.
  - intros k qr Hk. rewrite (call_back_spec _ _ _ _ _ _ Hk Hc). simpl.
    exists (closure_after ext (EvQr qr) c). split.
    + rewrite list_lookup_alter, decide_True by done. by rewrite Hc.
    + apply (closure_after_image (EvQr qr)).
  - intros ev. rewrite (deliver_spec _ _ _ _ _ Hc). simpl.
    exists (closure_after ext ev c). split.
    + rewrite list_lookup_alter, decide_True by done. by rewrite Hc.
    + apply closure_after_image.
Qed.

(** Two pairing codes whose encodings call back in the order of the
    events, spelled out: the closure and the trace are those of the two
    events delivered one after the other. *)
Lemma deferred_in_order w h env qr1 qr2 :
  clients w !! h = Some env →
  let n := length (pending w) in
  let w' := call_back ext n (call_back ext n (raise h (EvQr qr2) (raise h (EvQr qr1) w))) in
  clients w' = clients (deliver ext h (EvQr qr2) (deliver ext h (EvQr qr1) w))
  ∧ broadcasts (trace w')
    = broadcasts (trace (deliver ext h (EvQr qr2) (deliver ext h (EvQr qr1) w)))
  ∧ pending w' = pending w.
Proof.
  intros Hh n w'.
  set (c1 := closure_after ext (EvQr qr1) env).
  assert (alter (closure_after ext (EvQr qr1)) h (clients w) !! h = Some c1) as Hh1
    by (by rewrite list_lookup_alter, decide_True, Hh).
  rewrite (deliver_spec ext h (EvQr qr1) w env Hh).
  match goal with
  | |- context [deliver ext h (EvQr qr2) ?x] =>
      rewrite (deliver_spec ext h (EvQr qr2) x c1 Hh1)
  end.
  cbn [clients trace pending].
  set (w1 := raise h (EvQr qr1) w).
  assert (w1 = set_pending (λ l, l ++ [(h, qr1)]) (log (ActRaised h (EvQr qr1)) w))
    as Hw1 by (by apply raise_qr_spec with env).
  set (w2 := raise h (EvQr qr2) w1).
  assert (w2 = set_pending (λ l, l ++ [(h, qr2)]) (log (ActRaised h (EvQr qr2)) w1))
    as Hw2 by (apply raise_qr_spec with env; by rewrite Hw1).
  assert (pending w2 !! n = Some (h, qr1)) as Hk1.
  { rewrite Hw2, Hw1. simpl. rewrite <- app_assoc. by apply list_lookup_middle. }
  assert (clients w2 !! h = Some env) as Hc2 by (by rewrite Hw2, Hw1).
  set (w3 := call_back ext n w2).
  assert (w3 = {| sessions := sessions w2;
                  clients := alter (closure_after ext (EvQr qr1)) h (clients w2);
                  fs := fs w2;
                  trace := trace w2 ++ emitted_by ext (cl_sessionId env) (EvQr qr1);
                  pending := delete n (pending w2) |}) as Hw3
    by (by apply call_back_spec).
  assert (pending w3 !! n = Some (h, qr2)) as Hk2.
  { rewrite Hw3, Hw2, Hw1. simpl. rewrite <- app_assoc. simpl. unfold n.
    rewrite delete_middle. by apply list_lookup_middle. }
  assert (clients w3 !! h = Some c1) as Hc3 by (by rewrite Hw3, Hw2, Hw1).
  subst w'. fold w1 w2 w3.
  rewrite (call_back_spec ext n w3 h qr2 c1 Hk2 Hc3).
  cbn [clients trace pending]. subst c1. rewrite closure_after_sessionId_aux.
  rewrite Hw3. cbn [clients trace pending]. rewrite Hw2, Hw1. simpl.
  split; [done|]. split.
  - destruct (ext_toDataURL ext qr1), (ext_toDataURL ext qr2);
      rewrite !broadcasts_app; simpl; rewrite ?broadcasts_app; simpl;
      by rewrite <- ?app_assoc, ?app_nil_r.
  - rewrite <- app_assoc. simpl. unfold n.
    by rewrite delete_middle, delete_middle, app_nil_r.
Qed.

(** C7 (as amended): two pairing codes in a row whose encodings call back
    in the order of the events, at once or after both were raised.  The
    [qrCodeData] variable then holds one image: that of the second code
    when its encoding succeeded, else that of the first when that one
    succeeded, else what it held before.  A code whose encoding succeeds
    broadcasts one [qr] notification with its image; one whose encoding
    fails broadcasts nothing and leaves [qrCodeData] as it was. *)
Theorem latest_qr_replaces w h env qr1 qr2 :
  clients w !! h = Some env →
  let image qr before := default before (ext_toDataURL ext qr) in
  let sent qr := match ext_toDataURL ext qr with
                 | Some url => [IoQr (cl_sessionId env) url]
                 | None => []
                 end in
  let at_once := deliver ext h (EvQr qr2) (deliver ext h (EvQr qr1) w) in
  let n := length (pending w) in
  let later := call_back ext n (call_back ext n
                 (raise h (EvQr qr2) (raise h (EvQr qr1) w))) in
  (cl_qrCodeData <$> clients at_once !! h
   = Some (image qr2 (image qr1 (cl_qrCodeData env)))
   ∧ broadcasts (trace at_once) = broadcasts (trace w) ++ sent qr1 ++ sent qr2
   ∧ pending at_once = pending w)
  ∧ (cl_qrCodeData <$> clients later !! h
     = Some (image qr2 (image qr1 (cl_qrCodeData env)))
     ∧ broadcasts (trace later) = broadcasts (trace w) ++ sent qr1 ++ sent qr2
     ∧ pending later = pending w).
Proof.
  intros Hh image sent at_once n later.
  assert (cl_qrCodeData <$> clients at_once !! h
          = Some (image qr2 (image qr1 (cl_qrCodeData env)))
          ∧ broadcasts (trace at_once) = broadcasts (trace w) ++ sent qr1 ++ sent qr2
          ∧ pending at_once = pending w) as Hnow.
  { subst at_once image sent. rewrite (deliver_spec _ _ _ _ _ Hh).
    assert (alter (closure_after ext (EvQr qr1)) h (clients w) !! h
            = Some (closure_after ext (EvQr qr1) env)) as Hh1
      by (by rewrite list_lookup_alter, decide_True, Hh).
    match goal with
    | |- context [deliver ext h (EvQr qr2) ?x] =>
        rewrite (deliver_spec ext h (EvQr qr2) x _ Hh1)
    end.
    cbn [clients trace pending].
    rewrite list_lookup_alter, decide_True, Hh1 by done.
    cbn [fmap option_fmap option_map].
    rewrite (closure_after_image (EvQr qr2)), (closure_after_image (EvQr qr1)).
    split; [done|]. split; [|done].
    rewrite closure_after_sessionId_aux. unfold emitted_by.
    destruct (ext_toDataURL ext qr1), (ext_toDataURL ext qr2);
      rewrite !broadcasts_app; simpl; rewrite ?broadcasts_app; simpl;
      by rewrite <- ?app_assoc, ?app_nil_r. }
  split; [exact Hnow|].
  destruct (deferred_in_order w h env qr1 qr2 Hh) as (Hc & Hb & Hp).
  destruct Hnow as (Hq & Hs & _).
  subst later n. rewrite Hc, Hb, Hp. done.
Qed.

End Pairing.

(** C3, counterexample: after a pairing code and [authenticated] the state
    is Authenticated and [qrCodeData] still holds the image; and in state
    AwaitingScan the record of the registry holds no image at all. *)
Lemma qrCodeData_kept_when_authenticated :
  let scanned := run ext_demo [Http GetStartSession; Raised 0 (EvQr "X123")] in
  let authed := step ext_demo scanned (Raised 0 EvAuthenticated) in
  spec_state 0 authed = Some Authenticated
  ∧ cl_qrCodeData <$> clients authed !! 0 = Some "data:image/png;base64,X123"
  ∧ spec_state 0 scanned = Some AwaitingScan
  ∧ qrCodeData <$> sessions scanned !! demo_id = Some "".
Proof. vm_compute. done. Qed.

(** An encoding that calls back after [ready]: the state is Ready and
    [qrCodeData] holds the image. *)
Lemma late_callback_after_ready :
  let w := run ext_demo [Http GetStartSession; RaisedOnly 0 (EvQr "X123");
                         Raised 0 EvAuthenticated; Raised 0 EvReady; CalledBack 0] in
  spec_state 0 w = Some Ready
  ∧ clients w !! 0 = Some (mkClosure demo_id "data:image/png;base64,X123" false).
Proof. vm_compute. done. Qed.

Lemma qrCodeData_cleared_witness :
  let ins := [Http GetStartSession; Raised 0 (EvQr "X123")] in
  let later := [Http GetStartSession; RaisedOnly 0 (EvQr "X123")] in
  (clients (run ext_demo ins) !! 0
   = Some (mkClosure demo_id "data:image/png;base64,X123" false)
   ∧ spec_state 0 (run ext_demo ins) = Some AwaitingScan
   ∧ (∃ qr, EvQr qr ∈ events_of 0 (trace (run ext_demo ins))
            ∧ ext_toDataURL ext_demo qr = Some "data:image/png;base64,X123")
   ∧ (AwaitingScan = AwaitingScan ∨ AwaitingScan = Authenticated)
   ∧ (∃ c', clients (raise 0 EvReady (run ext_demo ins)) !! 0 = Some c'
            ∧ cl_qrCodeData c' = ""))
  ∧ (pending (run ext_demo later) !! 0 = Some (0, "X123")
     ∧ ∃ c', clients (call_back ext_demo 0 (run ext_demo later)) !! 0 = Some c'
             ∧ cl_qrCodeData c' = "data:image/png;base64,X123").
Proof.
  intros ins later.
  assert (clients (run ext_demo ins) !! 0
          = Some (mkClosure demo_id "data:image/png;base64,X123" false))
    as Hc by (vm_compute; reflexivity).
  assert (spec_state 0 (run ext_demo ins) = Some AwaitingScan) as Hs
    by (vm_compute; reflexivity).
  assert (clients (run ext_demo later) !! 0 = Some (mkClosure demo_id "" false))
    as Hc' by (vm_compute; reflexivity).
  assert (pending (run ext_demo later) !! 0 = Some (0, "X123")) as Hk
    by (vm_compute; reflexivity).
  assert (prompt ins) as Hp by (by repeat constructor).
  split.
  - destruct (qrCodeData_cleared_outside_pairing ext_demo ins 0 _ Hc)
      as (Himg & Hstate & Hraise & _).
    split; [exact Hc|]. split; [exact Hs|].
    split; [apply Himg; discriminate|].
    split; [apply (Hstate Hp AwaitingScan Hs); discriminate | apply (Hraise EvReady)].
  - destruct (qrCodeData_cleared_outside_pairing ext_demo later 0 _ Hc')
      as (_ & _ & _ & Hcall & _).
    split; [exact Hk | apply (Hcall 0 "X123" Hk)].
Defined.

(** C7, counterexample: the encoder rejects the second pairing code (the
    empty text), so that the image of the first one stays and the two
    events broadcast one [qr] notification between them. *)
Lemma rejected_qr_keeps_previous :
  let w := run ext_demo [Http GetStartSession; Raised 0 (EvQr "X123"); Raised 0 (EvQr "")] in
  cl_qrCodeData <$> clients w !! 0 = Some "data:image/png;base64,X123"
  ∧ filter (λ a, is_qr_emit a = true) (trace w)
    = [ActEmit (IoQr demo_id "data:image/png;base64,X123")].
Proof. vm_compute. done. Qed.

(** Two encodings that call back in the other order: the image of the
    first pairing code is the one that stays. *)
Lemma callbacks_out_of_order :
  let w := run ext_demo [Http GetStartSession; RaisedOnly 0 (EvQr "X123");
                         RaisedOnly 0 (EvQr "Y456"); CalledBack 1; CalledBack 0] in
  cl_qrCodeData <$> clients w !! 0 = Some "data:image/png;base64,X123"
  ∧ broadcasts (trace w) = [IoQr demo_id "data:image/png;base64,Y456";
                            IoQr demo_id "data:image/png;base64,X123"].
Proof. vm_compute. done. Qed.

Lemma latest_qr_replaces_witness :
  let w := run ext_demo [Http GetStartSession] in
  let at_once := deliver ext_demo 0 (EvQr "") (deliver ext_demo 0 (EvQr "X123") w) in
  let later := call_back ext_demo 0 (call_back ext_demo 0
                 (raise 0 (EvQr "Y456") (raise 0 (EvQr "X123") w))) in
  (cl_qrCodeData <$> clients at_once !! 0 = Some "data:image/png;base64,X123"
   ∧ broadcasts (trace at_once) = [IoQr demo_id "data:image/png;base64,X123"])
  ∧ (cl_qrCodeData <$> clients later !! 0 = Some "data:image/png;base64,Y456"
     ∧ broadcasts (trace later) = [IoQr demo_id "data:image/png;base64,X123";
                                   IoQr demo_id "data:image/png;base64,Y456"]).
Proof.
  intros w.
  assert (clients w !! 0 = Some (mkClosure demo_id "" false)) as Hc
    by (vm_compute; reflexivity).
  split.
  - destruct (proj1 (latest_qr_replaces ext_demo w 0 _ "X123" "" Hc)) as (Hq & Hb & _).
    split; [exact Hq | exact Hb].
  - destruct (proj2 (latest_qr_replaces ext_demo w 0 _ "X123" "Y456" Hc)) as (Hq & Hb & _).
    split; [exact Hq | exact Hb].
Defined.

(** ** The registry *)

Section Registry.

Variable ext : External.

(** C9 (as amended): [createNewClientSession] does not look whether the id
    is in the registry.  It always succeeds, creates a new client, and
    stores the new record under the id, in place of any record that was
    there; GET /start-session calls it with the 30 hexadecimal digits of
    15 random bytes and redirects to the status view of that id. *)
Theorem createNewClientSession_overwrites sessionId w :
  let h := length (clients w) in
  let r := createNewClientSession ext sessionId w in
  let id := toString_hex (ext_randomBytes ext w 15) in
  r.1 = Ok sessionId
  ∧ sessions r.2 = <[sessionId := snapshot h]> (sessions w)
  ∧ sessions r.2 !! sessionId = Some (snapshot h)
  ∧ (∀ other, other ≠ sessionId → sessions r.2 !! other = sessions w !! other)
  ∧ clients r.2 = clients w ++ [mkClosure sessionId "" false]
  ∧ serve ext GetStartSession w
    = (RespRedirect ("/qr/" +:+ id), (createNewClientSession ext id w).2).
Proof.
  intros h r id. subst r id. rewrite !createNewClientSession_spec. simpl.
  split; [done|]. split; [done|]. split; [by rewrite lookup_insert_eq|].
  split; [intros other Hne; by rewrite lookup_insert_ne|]. split; [done|].
  unfold serve, route, get_start_session, bind, generateSessionId.
  rewrite createNewClientSession_spec. done.
Qed.

(** What GET /qr answers, as a function of what it finds: a record, an
    inherited member (which has neither [clientReady] nor [qrCodeData]) or
    nothing. *)
Lemma get_qr_dispatch w sessionId :
  serve ext (GetQr sessionId) w
  = (match sessions w !! sessionId with
     | Some s =>
         if clientReady s then RespRedirect ("/send-message/" +:+ sessionId)
         else if truthy (qrCodeData s) then RespQrPage sessionId (qrCodeData s)
         else RespSend 200 "QR code belum tersedia. Silakan coba lagi nanti."
     | None =>
         if is_inherited sessionId
         then RespSend 200 "QR code belum tersedia. Silakan coba lagi nanti."
         else RespSend 404 "Session not found."
     end, w).
Proof.
  unfold_handlers. unfold_prims. unfold truthy.
  destruct (sessions w !! sessionId) as [s|]; simpl;
    [|by destruct (is_inherited sessionId)].
  destruct (clientReady s); simpl; [done|]. by destruct (String.eqb _ _).
Qed.

(** What GET /send-message answers, as a function of what it finds. *)
Lemma get_send_message_dispatch w sessionId :
  serve ext (GetSendMessage sessionId) w
  = (match sessions w !! sessionId with
     | Some s => if clientReady s then RespSendForm sessionId
                 else RespRedirect ("/qr/" +:+ sessionId)
     | None => RespRedirect ("/qr/" +:+ sessionId)
     end, w).
Proof.
  unfold_handlers. unfold_prims.
  destruct (sessions w !! sessionId) as [s|]; simpl;
    [|by destruct (is_inherited sessionId)].
  by destruct (clientReady s).
Qed.

(** C10: a record of the registry holds the values the two variables had
    when it was stored.  Whatever requests and client events the server
    has handled, the record has [qrCodeData = ''] and
    [clientReady = false]; no client event changes the registry; and
    GET /qr and GET /send-message, which read the two fields, answer as
    for a session just created: "not yet available" and a redirect to
    /qr. *)
Theorem registry_keeps_snapshot ins sessionId s :
  sessions (run ext ins) !! sessionId = Some s →
  qrCodeData s = "" ∧ clientReady s = false
  ∧ (∀ h ev, sessions (deliver ext h ev (run ext ins)) = sessions (run ext ins))
  ∧ serve ext (GetQr sessionId) (run ext ins)
    = (RespSend 200 "QR code belum tersedia. Silakan coba lagi nanti.", run ext ins)
  ∧ serve ext (GetSendMessage sessionId) (run ext ins)
    = (RespRedirect ("/qr/" +:+ sessionId), run ext ins).
Proof.
  intros Hs. destruct (run_sessions _ _ _ _ Hs) as [h ->].
  split; [done|]. split; [done|]. split; [intros; apply deliver_sessions|].
  rewrite get_qr_dispatch, get_send_message_dispatch, Hs. done.
Qed.

(** A logout that answers 200 found a record, whose client let itself be
    logged out, and has removed the record; the disk is the one
    [client.destroy] left. *)
Lemma logout_success w sessionId w' :
  serve ext (PostLogout sessionId) w
  = (RespJson 200 "success" "Logged out and session cleared. Scan a new QR code.", w') →
  ∃ s, sessions w !! sessionId = Some s
       ∧ sessions w' = delete sessionId (sessions w)
       ∧ (ext_logout ext w (client s)).1 = true
       ∧ fs w' = (ext_destroy ext (client_logout ext (client s) w).2 (client s)).2.
Proof.
  destruct (sessions w !! sessionId) as [s|] eqn:Hs.
  - rewrite (post_logout_cases _ _ _ _ Hs). unfold client_logout.
    destruct (ext_logout ext w (client s)).1 eqn:Hl; [|done].
    destruct (ext_destroy ext _ (client s)).1 eqn:Hd; [|done].
    intros [= <-]. exists s. by rewrite Hl.
  - rewrite (post_logout_no_record _ _ _ Hs). by destruct (is_inherited sessionId).
Qed.

End Registry.

(** C9, counterexample: creating a session under an id that is in the
    registry succeeds and puts a record with a second client in the place
    of the first one. *)
Lemma create_on_present_id_succeeds :
  let w1 := (createNewClientSession ext_demo "A" empty_world).2 in
  let r := createNewClientSession ext_demo "A" w1 in
  sessions w1 !! "A" = Some (snapshot 0)
  ∧ r.1 = Ok "A"
  ∧ sessions r.2 !! "A" = Some (snapshot 1)
  ∧ length (clients r.2) = 2%nat.
Proof. vm_compute. done. Qed.

Lemma registry_keeps_snapshot_witness :
  let ins := [Http GetStartSession; Raised 0 (EvQr "X123"); Raised 0 EvAuthenticated;
              Raised 0 EvReady] in
  sessions (run ext_demo ins) !! demo_id = Some (snapshot 0)
  ∧ cl_clientReady <$> clients (run ext_demo ins) !! 0 = Some true
  ∧ serve ext_demo (GetQr demo_id) (run ext_demo ins)
    = (RespSend 200 "QR code belum tersedia. Silakan coba lagi nanti.", run ext_demo ins)
  ∧ serve ext_demo (GetSendMessage demo_id) (run ext_demo ins)
    = (RespRedirect ("/qr/" +:+ demo_id), run ext_demo ins).
Proof.
  intros ins.
  assert (sessions (run ext_demo ins) !! demo_id = Some (snapshot 0)) as Hs
    by (vm_compute; reflexivity).
  split; [exact Hs|]. split; [vm_compute; reflexivity|].
  exact (proj2 (proj2 (proj2 (registry_keeps_snapshot ext_demo ins demo_id _ Hs)))).
Defined.

(** ** The code against the lifecycle of the specification *)

(** C1, at a failing input: a session that was just created (state
    Created, [clientReady] false in the record and in the closure) is sent
    a message; the request is not rejected and [client.sendMessage] is
    called. *)
Theorem send_message_not_gated_on_ready :
  let w := run ext_demo [Http GetStartSession] in
  let r := serve ext_demo
             (PostSendMessage demo_id (mkBody (Some "+62 812-3456") (Some "hi"))) w in
  spec_state 0 w = Some Created
  ∧ sessions w !! demo_id = Some (snapshot 0)
  ∧ cl_clientReady <$> clients w !! 0 = Some false
  ∧ r.1 = RespRedirect ("/qr/" +:+ demo_id)
  ∧ trace r.2 = trace w ++ [ActSendMessage 0 "628123456@c.us" "hi"].
Proof. vm_compute. done. Qed.

(** C5, at a failing input: [constructor] is no id of the registry, but
    [sessions['constructor']] is the function every object inherits.
    POST /send-message/constructor is therefore not answered 404: it is
    answered 500 when both fields are there, because the function has no
    [client] to call, and 400 when one is missing.  Nothing changes and no
    client is called.  An id that names no inherited member gets the
    404. *)
Theorem send_message_to_inherited_name :
  let w := run ext_demo [Http GetStartSession] in
  sessions w !! "constructor" = None
  ∧ serve ext_demo
      (PostSendMessage "constructor" (mkBody (Some "+62 812-3456") (Some "hi"))) w
    = (RespSend 500 "Failed to send message.", w)
  ∧ serve ext_demo (PostSendMessage "constructor" (mkBody None (Some "hi"))) w
    = (RespJson 400 "error" "Please provide both number and message.", w)
  ∧ serve ext_demo (PostSendMessage "B" (mkBody (Some "+62 812-3456") (Some "hi"))) w
    = (RespSend 404 "Session not found.", w).
Proof. vm_compute. done. Qed.

(** C4, at a failing input: in state AwaitingScan, with an image in the
    closure, and in state Ready, with [clientReady] true in the closure,
    GET /qr answers "not yet available" instead of the QR page and the
    redirect to the send-message view. *)
Theorem get_qr_ignores_lifecycle :
  let scanned := run ext_demo [Http GetStartSession; Raised 0 (EvQr "X123")] in
  let ready := fold_left (step ext_demo) [Raised 0 EvAuthenticated; Raised 0 EvReady] scanned in
  spec_state 0 scanned = Some AwaitingScan
  ∧ clients scanned !! 0 = Some (mkClosure demo_id "data:image/png;base64,X123" false)
  ∧ (serve ext_demo (GetQr demo_id) scanned).1
    = RespSend 200 "QR code belum tersedia. Silakan coba lagi nanti."
  ∧ spec_state 0 ready = Some Ready
  ∧ clients ready !! 0 = Some (mkClosure demo_id "" true)
  ∧ (serve ext_demo (GetQr demo_id) ready).1
    = RespSend 200 "QR code belum tersedia. Silakan coba lagi nanti."
  ∧ (serve ext_demo (GetQr "B") ready).1 = RespSend 404 "Session not found.".
Proof. vm_compute. done. Qed.

(** ** The theorems at concrete inputs *)

Lemma chatId_normalized_witness :
  let w := run ext_demo [Http GetStartSession] in
  trace (serve ext_demo
           (PostSendMessage demo_id (mkBody (Some "+62 812-3456") (Some "hi"))) w).2
  = trace w ++ [ActSendMessage 0 (chatId_of "+62 812-3456") "hi"].
Proof.
  intros w.
  apply (proj1 (chatId_normalized ext_demo w demo_id (snapshot 0) "+62 812-3456" "hi"
                  ltac:(vm_compute; reflexivity) ltac:(discriminate) ltac:(discriminate))).
Defined.

Lemma post_logout_deletes_last_witness :
  let w := run ext_demo [Http GetStartSession] in
  (sessions (serve ext_demo (PostLogout demo_id) w).2 = delete demo_id (sessions w)
   ∧ trace (serve ext_demo (PostLogout demo_id) w).2
     = trace w ++ [ActLogout 0; ActDestroy 0; ActExistsSync None; ActDeleteSession demo_id])
  ∧ (serve ext_stuck (PostLogout demo_id) w).1 = RespJson 500 "error" "Failed to log out."
  ∧ sessions (serve ext_stuck (PostLogout demo_id) w).2 = sessions w.
Proof.
  intros w.
  assert (sessions w !! demo_id = Some (snapshot 0)) as Hs by (vm_compute; reflexivity).
  split.
  - exact (proj2 (proj2 (post_logout_deletes_last ext_demo w demo_id _ Hs))).
  - pose proof (proj2 (post_logout_deletes_last ext_stuck w demo_id _ Hs)) as H.
    split; [exact (proj1 H) | exact (proj1 (proj2 H))].
Defined.

(** ** Session ids *)

Lemma hex_digit_is_hex n : is_hex_digit (hex_digit n) = true.
Proof. do 16 (destruct n as [|n]; [reflexivity|]). reflexivity. Qed.

Lemma hex_value_digit n : (n < 16)%nat → hex_value (hex_digit n) = n.
Proof. intros Hn. do 16 (destruct n as [|n]; [reflexivity|]). lia. Qed.

Lemma byte_of_nibbles a b :
  hex_digit (Byte.to_nat a / 16) = hex_digit (Byte.to_nat b / 16) →
  hex_digit (Byte.to_nat a mod 16) = hex_digit (Byte.to_nat b mod 16) →
  a = b.
Proof.
  intros Hhi Hlo.
  pose proof (Byte.to_nat_bounded a) as Ha. pose proof (Byte.to_nat_bounded b) as Hb.
  apply (f_equal hex_value) in Hhi, Hlo.
  rewrite !hex_value_digit in Hhi, Hlo
    by (try apply Nat.mod_upper_bound; try apply Nat.Div0.div_lt_upper_bound; lia).
  assert (Byte.to_nat a = Byte.to_nat b) as Heq.
  { rewrite (Nat.div_mod_eq (Byte.to_nat a) 16), (Nat.div_mod_eq (Byte.to_nat b) 16).
    by rewrite Hhi, Hlo. }
  pose proof (Byte.of_to_nat a) as Hoa. rewrite Heq, Byte.of_to_nat in Hoa.
  by injection Hoa.
Qed.

Lemma toString_hex_chars bs :
  Forall (λ c, is_hex_digit c = true) (list_ascii_of_string (toString_hex bs)).
Proof.
  induction bs as [|b bs IH]; simpl; [constructor|].
  repeat (constructor; [apply hex_digit_is_hex|]). exact IH.
Qed.

(** X1: the id written for [n] bytes has [2 * n] characters, each of them
    one of [0-9a-f]. *)
Theorem toString_hex_shape bs :
  String.length (toString_hex bs) = (2 * length bs)%nat
  ∧ Forall (λ c, is_hex_digit c = true) (list_ascii_of_string (toString_hex bs)).
Proof. split; [apply toString_hex_length | apply toString_hex_chars]. Qed.

(** X2: different byte sequences are written as different ids: the bytes
    can be read back off the id. *)
Theorem toString_hex_inj bs1 bs2 :
  toString_hex bs1 = toString_hex bs2 → bs1 = bs2.
Proof.
  revert bs2. induction bs1 as [|a bs1 IH]; intros [|b bs2]; simpl; try done.
  intros [= Hhi Hlo Hrest]. f_equal; [by apply byte_of_nibbles | by apply IH].
Qed.

Lemma toString_hex_inj_witness :
  toString_hex [x2a; x00] = "2a00" ∧ [x2a; x00] = [x2a; x00].
Proof.
  split; [reflexivity|].
  apply (toString_hex_inj [x2a; x00] [x2a; x00]). reflexivity.
Defined.

(** ** Invariants of the whole server *)

Section Whole.

Variable ext : External.

Lemma request_cases (req : Request) :
  req = GetStartSession ∨ req ≠ GetStartSession.
Proof. destruct req; auto. Qed.

(** GET /start-session, spelled out. *)
Lemma serve_start_spec w :
  let id := toString_hex (ext_randomBytes ext w 15) in
  let h := length (clients w) in
  (serve ext GetStartSession w).1 = RespRedirect ("/qr/" +:+ id)
  ∧ sessions (serve ext GetStartSession w).2 = <[id := snapshot h]> (sessions w)
  ∧ clients (serve ext GetStartSession w).2 = clients w ++ [mkClosure id "" false]
  ∧ trace (serve ext GetStartSession w).2
    = trace w ++ [ActNewClient h id; ActInitialize h; ActStoreSession id].
Proof.
  unfold serve, route, get_start_session, bind, generateSessionId.
  by rewrite createNewClientSession_spec.
Qed.

(** The other requests create no client and store no record, and add to
    the trace only calls of the client of the record they found. *)
Lemma serve_other_spec req w :
  req ≠ GetStartSession →
  clients (serve ext req w).2 = clients w
  ∧ (∀ sessionId s, sessions (serve ext req w).2 !! sessionId = Some s →
                    sessions w !! sessionId = Some s)
  ∧ ∃ added, trace (serve ext req w).2 = trace w ++ added
             ∧ broadcasts added = []
             ∧ Forall (λ a, is_rmdir a = false) added.
Proof.
  intros Hreq. destruct req as [|id|id|id body|id]; [done|..].
  - rewrite get_qr_dispatch. simpl. split; [done|]. split; [done|].
    exists []. by rewrite app_nil_r.
  - rewrite get_send_message_dispatch. simpl. split; [done|]. split; [done|].
    exists []. by rewrite app_nil_r.
  - destruct (sessions w !! id) as [r|] eqn:Hr.
    + unfold_handlers. unfold_prims. rewrite Hr. simpl.
      destruct (is_falsy _ || is_falsy _); simpl;
        [split; [done|]; split; [done|]; exists []; by rewrite app_nil_r|].
      destruct (ext_sendMessage _ _ _ _ _); simpl;
        (split; [done|]; split; [done|]; eexists; split; [done|];
         split; [done|]; by repeat constructor).
    + rewrite (proj1 (post_send_message_rejects ext w id body) Hr). simpl.
      split; [done|]. split; [done|]. exists []. by rewrite app_nil_r.
  - destruct (sessions w !! id) as [r|] eqn:Hr.
    + rewrite (post_logout_cases _ _ _ _ Hr).
      repeat match goal with |- context [if ?b then _ else _] => destruct b end;
        simpl; (split; [done|]); rewrite <- ?app_assoc;
        (split; [first [done | by intros ?? [_ ?]%lookup_delete_Some]|]);
        eexists; (split; [done|]); (split; [done|]); by repeat constructor.
    + rewrite (post_logout_no_record _ _ _ Hr). simpl.
      split; [done|]. split; [done|]. exists []. by rewrite app_nil_r.
Qed.

Lemma closure_after_sessionId ev c :
  cl_sessionId (closure_after ext ev c) = cl_sessionId c.
Proof. destruct ev as [qr| | | |]; simpl; try done. by destruct (ext_toDataURL ext qr). Qed.

Lemma emitted_by_no_rmdir sessionId ev :
  Forall (λ a, is_rmdir a = false) (emitted_by ext sessionId ev).
Proof.
  destruct ev as [qr| | | |]; simpl;
    [destruct (ext_toDataURL ext qr)|..]; by repeat constructor.
Qed.

(** An event or a callback creates and discards no client. *)
Lemma deliver_clients_length h ev w :
  length (clients (deliver ext h ev w)) = length (clients w).
Proof.
  destruct (clients w !! h) as [env|] eqn:Hh.
  - rewrite (deliver_spec _ _ _ _ _ Hh). simpl. apply length_alter.
  - by rewrite (deliver_no_client _ _ _ _ Hh).
Qed.

Lemma raise_clients_length h ev w :
  length (clients (raise h ev w)) = length (clients w).
Proof.
  destruct ev as [qr| | | |];
    [|rewrite (raise_other ext) by done; apply deliver_clients_length..].
  destruct (clients w !! h) as [env|] eqn:Hh.
  - by rewrite (raise_qr_spec _ _ _ _ Hh).
  - by rewrite (raise_no_client _ _ _ Hh).
Qed.

Lemma call_back_clients_length k w :
  length (clients (call_back ext k w)) = length (clients w).
Proof.
  destruct (pending w !! k) as [[h qr]|] eqn:Hk; [|by rewrite (call_back_none _ _ _ Hk)].
  destruct (clients w !! h) as [env|] eqn:Hh.
  - rewrite (call_back_spec _ _ _ _ _ _ Hk Hh). simpl. apply length_alter.
  - by rewrite (call_back_no_client _ _ _ _ _ Hk Hh).
Qed.

(** Changing the variables of one closure keeps the registry tied to the
    closures. *)
Lemma alter_registry_inv w w' h ev :
  registry_inv w →
  sessions w' = sessions w →
  clients w' = alter (closure_after ext ev) h (clients w) →
  registry_inv w'.
Proof.
  intros Hinv Hs Hc id s. rewrite Hs, Hc. intros Hlook.
  destruct (Hinv id s Hlook) as (c & Hcl & Hid).
  destruct (decide (h = client s)) as [->|Hne].
  - exists (closure_after ext ev c). split; [|by rewrite closure_after_sessionId].
    by rewrite list_lookup_alter, decide_True, Hcl.
  - exists c. by rewrite list_lookup_alter_ne.
Qed.

Lemma deliver_registry_inv h ev w : registry_inv w → registry_inv (deliver ext h ev w).
Proof.
  intros Hinv. destruct (clients w !! h) as [env|] eqn:Hh.
  - apply (alter_registry_inv w _ h ev Hinv); by rewrite (deliver_spec _ _ _ _ _ Hh).
  - by rewrite (deliver_no_client _ _ _ _ Hh).
Qed.

Lemma raise_registry_inv h ev w : registry_inv w → registry_inv (raise h ev w).
Proof.
  intros Hinv.
  destruct ev as [qr| | | |];
    [|rewrite (raise_other ext) by done; by apply deliver_registry_inv..].
  destruct (clients w !! h) as [env|] eqn:Hh.
  - by rewrite (raise_qr_spec _ _ _ _ Hh).
  - by rewrite (raise_no_client _ _ _ Hh).
Qed.

Lemma call_back_registry_inv k w : registry_inv w → registry_inv (call_back ext k w).
Proof.
  intros Hinv.
  destruct (pending w !! k) as [[h qr]|] eqn:Hk; [|by rewrite (call_back_none _ _ _ Hk)].
  destruct (clients w !! h) as [env|] eqn:Hh.
  - apply (alter_registry_inv w _ h (EvQr qr) Hinv);
      by rewrite (call_back_spec _ _ _ _ _ _ Hk Hh).
  - by rewrite (call_back_no_client _ _ _ _ _ Hk Hh).
Qed.

Lemma step_registry_inv w i : registry_inv w → registry_inv (step ext w i).
Proof.
  intros Hinv. destruct i as [req|h ev|h ev|k]; simpl.
  - destruct (request_cases req) as [->|Hreq].
    + destruct (serve_start_spec w) as (_ & Hs & Hc & _).
      intros id s. rewrite Hs, Hc. intros [[<- <-]|[Hne Hold]]%lookup_insert_Some.
      * exists (mkClosure (toString_hex (ext_randomBytes ext w 15)) "" false).
        split; [|done]. simpl.
        rewrite lookup_app_r by done. by rewrite Nat.sub_diag.
      * destruct (Hinv id s Hold) as (c & Hlook & Hid).
        exists c. split; [by apply lookup_app_l_Some|done].
    + destruct (serve_other_spec req w Hreq) as (Hc & Hs & _).
      intros id s Hlook. rewrite Hc. by apply Hinv, Hs.
  - by apply deliver_registry_inv.
  - by apply raise_registry_inv.
  - by apply call_back_registry_inv.
Qed.

Lemma run_registry_inv ins : registry_inv (run ext ins).
Proof.
  induction ins as [|i ins IH] using rev_ind.
  - intros id s. unfold run. simpl. by rewrite lookup_empty.
  - rewrite run_snoc. by apply step_registry_inv.
Qed.

(** X3: no two records of the registry share a client, and the client of
    the record stored under an id is the one whose handlers captured that
    id, so that its notifications carry that id. *)
Theorem client_never_shared ins id1 id2 s1 s2 :
  sessions (run ext ins) !! id1 = Some s1 →
  sessions (run ext ins) !! id2 = Some s2 →
  client s1 = client s2 →
  id1 = id2
  ∧ ∃ c, clients (run ext ins) !! client s1 = Some c ∧ cl_sessionId c = id1.
Proof.
  intros H1 H2 Heq.
  destruct (run_registry_inv ins id1 s1 H1) as (c1 & Hc1 & Hid1).
  destruct (run_registry_inv ins id2 s2 H2) as (c2 & Hc2 & Hid2).
  split; [|eauto]. rewrite Heq, Hc2 in Hc1. injection Hc1 as <-. congruence.
Qed.

(** An event or a callback leaves the registry as it is. *)
Lemma step_event_sessions w i :
  (∀ req, i ≠ Http req) → sessions (step ext w i) = sessions w.
Proof.
  intros Hi. destruct i as [req|h ev|h ev|k]; simpl.
  - exfalso. by apply (Hi req).
  - apply deliver_sessions.
  - apply (raise_sessions ext).
  - apply call_back_sessions.
Qed.

(** Every id of the registry was written by [toString('hex')]. *)
Lemma run_ids_hex ins sessionId s :
  sessions (run ext ins) !! sessionId = Some s →
  Forall (λ c, is_hex_digit c = true) (list_ascii_of_string sessionId).
Proof.
  revert sessionId s. induction ins as [|i ins IH] using rev_ind; intros id s.
  - unfold run. simpl. by rewrite lookup_empty.
  - rewrite run_snoc. destruct i as [req|h ev|h ev|k];
      [|rewrite step_event_sessions by done; eauto..]. simpl.
    destruct (request_cases req) as [->|Hreq].
    + destruct (serve_start_spec (run ext ins)) as (_ & Hs & _).
      rewrite Hs. intros [[<- _]|[_ Hold]]%lookup_insert_Some; [|eauto].
      apply toString_hex_chars.
    + destruct (serve_other_spec req (run ext ins) Hreq) as (_ & Hs & _).
      intros Hlook. eauto.
Qed.

Lemma Forall_hex_forallb l :
  Forall (λ c, is_hex_digit c = true) l → forallb is_hex_digit l = true.
Proof. induction 1 as [|c l Hc _ IH]; simpl; [done|]. by rewrite Hc, IH. Qed.

(** No member of [Object.prototype] has a name made of hexadecimal digits. *)
Lemma hex_not_inherited sessionId :
  Forall (λ c, is_hex_digit c = true) (list_ascii_of_string sessionId) →
  is_inherited sessionId = false.
Proof.
  intros Hhex%Forall_hex_forallb.
  destruct (is_inherited sessionId) eqn:Hin; [|done].
  unfold is_inherited in Hin. apply existsb_exists in Hin as (name & Hname & Heq).
  apply String.eqb_eq in Heq as <-.
  apply list_elem_of_In in Hname. unfold Object_prototype_members in Hname.
  repeat (apply elem_of_cons in Hname as [->|Hname]; [by vm_compute in Hhex|]).
  by apply elem_of_nil in Hname.
Qed.

(** The ids of the registry are therefore found only as own properties. *)
Lemma run_ids_not_inherited ins sessionId s :
  sessions (run ext ins) !! sessionId = Some s → is_inherited sessionId = false.
Proof. intros Hs. eapply hex_not_inherited, run_ids_hex, Hs. Qed.

(** X4: when [crypto.randomBytes(15)] returns 15 bytes, every id of the
    registry is a string of 30 characters among [0-9a-f]. *)
Theorem registry_ids_are_hex ins sessionId s :
  (∀ w, length (ext_randomBytes ext w 15) = 15%nat) →
  sessions (run ext ins) !! sessionId = Some s →
  String.length sessionId = 30%nat
  ∧ Forall (λ c, is_hex_digit c = true) (list_ascii_of_string sessionId).
Proof.
  intros Hrnd. revert sessionId s.
  induction ins as [|i ins IH] using rev_ind; intros id s.
  - unfold run. simpl. by rewrite lookup_empty.
  - rewrite run_snoc. destruct i as [req|h ev|h ev|k];
      [|rewrite step_event_sessions by done; eauto..]. simpl.
    destruct (request_cases req) as [->|Hreq].
    + destruct (serve_start_spec (run ext ins)) as (_ & Hs & _).
      rewrite Hs. intros [[<- _]|[_ Hold]]%lookup_insert_Some; [|eauto].
      split; [by rewrite toString_hex_length, Hrnd | apply toString_hex_chars].
    + destruct (serve_other_spec req (run ext ins) Hreq) as (_ & Hs & _).
      intros Hlook. eauto.
Qed.

(** X5: every GET /start-session creates exactly one client and nothing
    else creates or discards one: the number of clients is the number of
    start requests served, also after logouts. *)
Theorem clients_count_starts ins :
  length (clients (run ext ins)) = length (filter (λ i, is_start i = true) ins).
Proof.
  induction ins as [|i ins IH] using rev_ind; [done|].
  rewrite run_snoc, filter_app, length_app, <- IH.
  assert (length (filter (λ i, is_start i = true) [i]) = if is_start i then 1 else 0)%nat
    as -> by (by destruct i as [[]| | |]).
  destruct i as [req|h ev|h ev|k]; simpl.
  - destruct (request_cases req) as [->|Hreq].
    + destruct (serve_start_spec (run ext ins)) as (_ & _ & Hc & _).
      by rewrite Hc, length_app.
    + destruct (serve_other_spec req (run ext ins) Hreq) as (Hc & _).
      rewrite Hc. destruct req; try done; simpl; lia.
  - rewrite Nat.add_0_r. apply deliver_clients_length.
  - rewrite Nat.add_0_r. apply raise_clients_length.
  - rewrite Nat.add_0_r. apply call_back_clients_length.
Qed.

(** X6: the server never removes a directory, whatever requests and events
    it handles: [fs.rmdirSync] is never called. *)
Theorem rmdirSync_never_called ins p :
  ActRmdirSync p ∉ trace (run ext ins).
Proof.
  assert (Forall (λ a, is_rmdir a = false) (trace (run ext ins))) as Hall.
  { induction ins as [|i ins IH] using rev_ind; [constructor|].
    rewrite run_snoc. destruct i as [req|h ev|h ev|k]; simpl.
    - destruct (request_cases req) as [->|Hreq].
      + destruct (serve_start_spec (run ext ins)) as (_ & _ & _ & ->).
        apply Forall_app. split; [done|]. by repeat constructor.
      + destruct (serve_other_spec req (run ext ins) Hreq) as (_ & _ & added & -> & _ & Hadd).
        apply Forall_app. done.
    - destruct (clients (run ext ins) !! h) as [env|] eqn:Hh;
        [|by rewrite (deliver_no_client _ _ _ _ Hh)].
      rewrite (deliver_spec _ _ _ _ _ Hh). cbn [trace].
      apply Forall_app. split; [done|]. constructor; [done|].
      apply emitted_by_no_rmdir.
    - destruct (clients (run ext ins) !! h) as [env|] eqn:Hh;
        [|by rewrite (raise_no_client _ _ _ Hh)].
      destruct ev as [qr| | | |];
        [rewrite (raise_qr_spec _ _ _ _ Hh); simpl; apply Forall_app;
         split; [done|]; by repeat constructor|..];
        rewrite (raise_other ext), (deliver_spec _ _ _ _ _ Hh) by done; cbn [trace];
        (apply Forall_app; split; [done|]; constructor; [done|]);
        apply emitted_by_no_rmdir.
    - destruct (pending (run ext ins) !! k) as [[h qr]|] eqn:Hk;
        [|by rewrite (call_back_none _ _ _ Hk)].
      destruct (clients (run ext ins) !! h) as [env|] eqn:Hh.
      + rewrite (call_back_spec _ _ _ _ _ _ Hk Hh). cbn [trace].
        apply Forall_app. split; [done|]. apply emitted_by_no_rmdir.
      + by rewrite (call_back_no_client _ _ _ _ _ Hk Hh). }
  intros Hin. rewrite Forall_forall in Hall. by apply Hall in Hin.
Qed.

(** X7: no request broadcasts anything; the notifications come from the
    client events alone. *)
Theorem requests_never_broadcast req w :
  broadcasts (trace (serve ext req w).2) = broadcasts (trace w).
Proof.
  destruct (request_cases req) as [->|Hreq].
  - destruct (serve_start_spec w) as (_ & _ & _ & ->).
    rewrite broadcasts_app. simpl. by rewrite app_nil_r.
  - destruct (serve_other_spec req w Hreq) as (_ & _ & added & -> & Hb & _).
    by rewrite broadcasts_app, Hb, app_nil_r.
Qed.

(** X8: an event of a client broadcasts exactly one notification, which
    carries the session id of that client, except a pairing code that the
    encoder rejects, which broadcasts nothing. *)
Theorem event_broadcasts_once w h env ev :
  clients w !! h = Some env →
  ∃ sent, broadcasts (trace (deliver ext h ev w)) = broadcasts (trace w) ++ sent
          ∧ Forall (λ e, io_sessionId e = cl_sessionId env) sent
          ∧ length sent = match ev with
                          | EvQr qr => match ext_toDataURL ext qr with
                                       | Some _ => 1
                                       | None => 0
                                       end
                          | _ => 1
                          end%nat.
Proof.
  intros Hh. rewrite (deliver_spec _ _ _ _ _ Hh). simpl.
  exists (broadcasts (emitted_by ext (cl_sessionId env) ev)).
  split; [by rewrite broadcasts_app|].
  destruct ev as [qr| | | |]; simpl;
    [destruct (ext_toDataURL ext qr)|..]; simpl; split; by repeat constructor.
Qed.

(** X9: an event of one client leaves the variables of every other client,
    the registry and the disk as they were. *)
Theorem event_touches_one_closure w h h' ev :
  h ≠ h' →
  clients (deliver ext h ev w) !! h' = clients w !! h'
  ∧ sessions (deliver ext h ev w) = sessions w
  ∧ fs (deliver ext h ev w) = fs w.
Proof.
  intros Hne. destruct (clients w !! h) as [env|] eqn:Hh.
  - rewrite (deliver_spec _ _ _ _ _ Hh). simpl.
    by rewrite list_lookup_alter_ne.
  - by rewrite (deliver_no_client _ _ _ _ Hh).
Qed.

Lemma deliver_ready_inv h0 ev w : ready_inv w → ready_inv (deliver ext h0 ev w).
Proof.
  intros Hinv.
  destruct (clients w !! h0) as [env|] eqn:Hh0; [|by rewrite (deliver_no_client _ _ _ _ Hh0)].
  rewrite (deliver_spec _ _ _ _ _ Hh0).
  intros h c. simpl. rewrite events_of_app, events_of_delivery.
  destruct (decide (h0 = h)) as [<-|Hne].
  - rewrite list_lookup_alter, decide_True, Hh0 by done. simpl.
    intros [= <-] Hready. rewrite last_snoc, elem_of_app, list_elem_of_singleton.
    destruct ev as [qr| | | |]; simpl in Hready; try done.
    + destruct (ext_toDataURL ext qr); [done|].
      destruct (Hinv h0 env Hh0 Hready) as [Hin _]. split; [by left|done].
    + split; [by right|done].
    + destruct (Hinv h0 env Hh0 Hready) as [Hin _]. split; [by left|done].
    + destruct (Hinv h0 env Hh0 Hready) as [Hin _]. split; [by left|done].
  - rewrite list_lookup_alter_ne, app_nil_r by done. apply Hinv.
Qed.

Lemma raise_ready_inv h0 ev w : ready_inv w → ready_inv (raise h0 ev w).
Proof.
  intros Hinv.
  destruct ev as [qr| | | |];
    [|rewrite (raise_other ext) by done; by apply deliver_ready_inv..].
  destruct (clients w !! h0) as [env|] eqn:Hh0; [|by rewrite (raise_no_client _ _ _ Hh0)].
  rewrite (raise_qr_spec _ _ _ _ Hh0).
  intros h c. simpl. rewrite events_of_app. simpl. intros Hc Hready.
  destruct (Hinv h c Hc Hready) as [Hin Hlast].
  split; [apply elem_of_app; by left|].
  case_decide; [by rewrite last_snoc|by rewrite app_nil_r].
Qed.

Lemma call_back_ready_inv k w : ready_inv w → ready_inv (call_back ext k w).
Proof.
  intros Hinv.
  destruct (pending w !! k) as [[h0 qr]|] eqn:Hk; [|by rewrite (call_back_none _ _ _ Hk)].
  destruct (clients w !! h0) as [env|] eqn:Hh0;
    [|by rewrite (call_back_no_client _ _ _ _ _ Hk Hh0)].
  rewrite (call_back_spec _ _ _ _ _ _ Hk Hh0).
  intros h c. cbn [clients trace]. rewrite events_of_app, events_of_emitted, app_nil_r.
  destruct (decide (h0 = h)) as [<-|Hne].
  - rewrite list_lookup_alter, decide_True, Hh0 by done.
    unfold closure_after. destruct (ext_toDataURL ext qr); simpl; [by intros [= <-]|].
    intros [= <-]. by apply Hinv.
  - rewrite list_lookup_alter_ne by done. apply Hinv.
Qed.

Lemma step_ready_inv w i : ready_inv w → ready_inv (step ext w i).
Proof.
  intros Hinv. destruct i as [req|h0 ev|h0 ev|k]; simpl.
  - intros h c Hc Hready. rewrite serve_events.
    destruct (serve_clients ext req w) as [Heq|[id Heq]]; rewrite Heq in Hc;
      [by apply (Hinv h c)|].
    destruct (decide (h < length (clients w))%nat) as [Hlt|Hge].
    + rewrite lookup_app_l in Hc by done. by apply (Hinv h c).
    + rewrite lookup_app_r in Hc by lia.
      apply list_lookup_singleton_Some in Hc as [_ <-]. done.
  - by apply deliver_ready_inv.
  - by apply raise_ready_inv.
  - by apply call_back_ready_inv.
Qed.

(** X10: the [clientReady] variable of a client is true only if the client
    has raised [ready] and the last event it raised is not
    [disconnected]. *)
Theorem clientReady_needs_ready ins h c :
  clients (run ext ins) !! h = Some c →
  cl_clientReady c = true →
  EvReady ∈ events_of h (trace (run ext ins))
  ∧ ∀ reason, last (events_of h (trace (run ext ins))) ≠ Some (EvDisconnected reason).
Proof.
  revert h c. change (ready_inv (run ext ins)).
  induction ins as [|i ins IH] using rev_ind.
  - intros h c. unfold run. simpl. by rewrite lookup_nil.
  - rewrite run_snoc. by apply step_ready_inv.
Qed.

End Whole.

(** ** Requests and how they compose *)

Section Requests.

Variable ext : External.

(** The concrete outside world keeps to [LocalAuth]. *)
Lemma ext_demo_localAuth : localAuth_contract ext_demo.
Proof.
  split; [|done]. intros w h env Hh _ q. simpl.
  unfold localAuth_logout, without_dir. rewrite Hh.
  by intros [Hq _]%elem_of_filter.
Qed.

(** C2: in every world the server reaches, once POST /logout has answered
    200 for an id, the id is gone from the registry, GET /qr answers 404
    for it, and no path of the disk is the auth store of the id or under
    it.  The store is removed by [client.logout]: the client was built
    with a [LocalAuth] strategy for this id, whose [logout] removes the
    directory it keeps the credentials in. *)
Theorem logout_removes_auth_store ins sessionId w' :
  localAuth_contract ext →
  serve ext (PostLogout sessionId) (run ext ins)
  = (RespJson 200 "success" "Logged out and session cleared. Scan a new QR code.", w') →
  sessions w' !! sessionId = None
  ∧ serve ext (GetQr sessionId) w' = (RespSend 404 "Session not found.", w')
  ∧ dir_gone (ext_authStore ext sessionId) (fs w').
Proof.
  intros [Hlogout Hdestroy] Hout.
  destruct (logout_success _ _ _ _ Hout) as (s & Hs & Hdel & Hok & Hfs).
  assert (sessions w' !! sessionId = None) as Hgone
    by (rewrite Hdel; apply lookup_delete_eq).
  split; [done|]. split.
  - by rewrite get_qr_dispatch, Hgone, (run_ids_not_inherited _ _ _ _ Hs).
  - destruct (run_registry_inv ext ins _ _ Hs) as (env & Henv & Hid).
    specialize (Hlogout _ _ _ Henv Hok). rewrite Hid in Hlogout.
    intros q Hq. apply Hlogout. rewrite Hfs in Hq.
    apply Hdestroy in Hq. revert Hq. unfold client_logout. by rewrite Hok.
Qed.

(** X11: for an id that is no own property of the registry, GET /qr and
    POST /logout answer 404, unless the id names a member every object
    inherits ([constructor], [toString], ...): the handlers then find that
    member, GET /qr answers "not yet available" and POST /logout answers
    500, for want of a [client] to log out.  GET /send-message redirects to
    /qr in both cases.  None of them calls a client, touches the disk or
    changes anything else. *)
Theorem unknown_id_no_effect w sessionId :
  sessions w !! sessionId = None →
  serve ext (GetQr sessionId) w
  = (if is_inherited sessionId
     then RespSend 200 "QR code belum tersedia. Silakan coba lagi nanti."
     else RespSend 404 "Session not found.", w)
  ∧ serve ext (PostLogout sessionId) w
    = (if is_inherited sessionId
       then RespJson 500 "error" "Failed to log out."
       else RespSend 404 "Session not found.", w)
  ∧ serve ext (GetSendMessage sessionId) w = (RespRedirect ("/qr/" +:+ sessionId), w).
Proof.
  intros Hs. rewrite get_qr_dispatch, get_send_message_dispatch, Hs.
  split; [done|]. split; [|done]. by apply post_logout_no_record.
Qed.

(** X12: once POST /logout has answered 200 for an id, the id is unknown
    to every handler: GET /qr, POST /send-message and a second POST /logout
    answer 404 and GET /send-message redirects to /qr, all without effect;
    the client is not logged out twice.  This holds in every world the
    server reaches, whose ids are hexadecimal, and for every id that does
    not name an inherited member. *)
Theorem after_logout_id_unknown w sessionId w' body :
  is_inherited sessionId = false ∨ (∃ ins, w = run ext ins) →
  serve ext (PostLogout sessionId) w
  = (RespJson 200 "success" "Logged out and session cleared. Scan a new QR code.", w') →
  serve ext (GetQr sessionId) w' = (RespSend 404 "Session not found.", w')
  ∧ serve ext (PostSendMessage sessionId body) w' = (RespSend 404 "Session not found.", w')
  ∧ serve ext (PostLogout sessionId) w' = (RespSend 404 "Session not found.", w')
  ∧ serve ext (GetSendMessage sessionId) w' = (RespRedirect ("/qr/" +:+ sessionId), w').
Proof.
  intros Hown Hout.
  destruct (logout_success _ _ _ _ Hout) as (s & Hs & Hdel & _).
  assert (is_inherited sessionId = false) as Hname.
  { destruct Hown as [Hname|[ins ->]]; [done|].
    by apply (run_ids_not_inherited _ _ _ _ Hs). }
  assert (sessions w' !! sessionId = None) as Hgone
    by (rewrite Hdel; apply lookup_delete_eq).
  rewrite get_qr_dispatch, get_send_message_dispatch, Hgone, Hname.
  split; [done|]. split; [|split; [|done]].
  - rewrite (proj1 (post_send_message_rejects ext w' sessionId body) Hgone).
    by rewrite Hname.
  - by rewrite (post_logout_no_record _ _ _ Hgone), Hname.
Qed.

(** X13: a logout that failed because [client.logout] threw can be made
    again: when the client then lets itself be logged out and destroyed,
    the second request answers 200 and removes the record. *)
Theorem logout_retry_succeeds w sessionId s :
  sessions w !! sessionId = Some s →
  (ext_logout ext w (client s)).1 = false →
  let w1 := (serve ext (PostLogout sessionId) w).2 in
  (ext_logout ext w1 (client s)).1 = true →
  (ext_destroy ext (client_logout ext (client s) w1).2 (client s)).1 = true →
  (serve ext (PostLogout sessionId) w).1 = RespJson 500 "error" "Failed to log out."
  ∧ (serve ext (PostLogout sessionId) w1).1
    = RespJson 200 "success" "Logged out and session cleared. Scan a new QR code."
  ∧ sessions (serve ext (PostLogout sessionId) w1).2 !! sessionId = None.
Proof.
  intros Hs Hfail w1 Hok Hdestroy.
  assert (sessions w1 !! sessionId = Some s) as Hs1.
  { subst w1. rewrite (post_logout_cases _ _ _ _ Hs), Hfail. done. }
  split; [by rewrite (post_logout_cases _ _ _ _ Hs), Hfail|].
  unfold client_logout in Hdestroy. rewrite Hok in Hdestroy. simpl in Hdestroy.
  rewrite (post_logout_cases _ _ _ _ Hs1), Hok. unfold log, set_fs in *. simpl in *.
  rewrite Hdestroy. simpl. split; [done|]. apply lookup_delete_eq.
Qed.

(** X14: what POST /send-message answers once the record is found and both
    fields are present depends on the client alone: a redirect to /qr when
    [client.sendMessage] resolves, 500 when it rejects; in both cases the
    registry, the closures, the disk and the pending encodings are as
    before, and the handler has made exactly one call: [sendMessage] on the
    client of the record, with the normalised address and the message. *)
Theorem send_outcome_leaves_state w sessionId s n m :
  sessions w !! sessionId = Some s →
  n ≠ "" → m ≠ "" →
  let r := serve ext (PostSendMessage sessionId (mkBody (Some n) (Some m))) w in
  r.1 = (if ext_sendMessage ext w (client s) (chatId_of n) m
         then RespRedirect ("/qr/" +:+ sessionId)
         else RespSend 500 "Failed to send message.")
  ∧ sessions r.2 = sessions w ∧ clients r.2 = clients w ∧ fs r.2 = fs w
  ∧ pending r.2 = pending w
  ∧ trace r.2 = trace w ++ [ActSendMessage (client s) (chatId_of n) m].
Proof.
  intros Hs Hn Hm r. subst r.
  by rewrite (post_send_message_delegates _ _ _ _ _ _ Hs Hn Hm).
Qed.

(** X15: a number without any digit passes the presence check, and the
    message is handed to the client for the address [@c.us]. *)
Theorem digitless_number_sent_to_bare_domain w sessionId s n m :
  sessions w !! sessionId = Some s →
  n ≠ "" → m ≠ "" →
  Forall (λ c, is_digit c = false) (list_ascii_of_string n) →
  chatId_of n = "@c.us"
  ∧ trace (serve ext (PostSendMessage sessionId (mkBody (Some n) (Some m))) w).2
    = trace w ++ [ActSendMessage (client s) "@c.us" m].
Proof.
  intros Hs Hn Hm Hnone.
  assert (replace_nondigits n = "") as Hempty.
  { clear Hn. induction n as [|c r IH]; simpl in *; [done|].
    apply Forall_cons in Hnone as [-> Hr]. by apply IH. }
  assert (chatId_of n = "@c.us") as Hid by (unfold chatId_of; by rewrite Hempty).
  split; [done|].
  by rewrite (post_send_message_delegates _ _ _ _ _ _ Hs Hn Hm), Hid.
Qed.

End Requests.

(** X16: normalising a number twice changes nothing more, the digits of
    two pieces are normalised piece by piece, no character is added, and
    two numbers with the same digits get the same address. *)
Theorem normalization_stable a b :
  replace_nondigits (replace_nondigits a) = replace_nondigits a
  ∧ replace_nondigits (a +:+ b) = replace_nondigits a +:+ replace_nondigits b
  ∧ (String.length (replace_nondigits a) ≤ String.length a)%nat
  ∧ chatId_of (replace_nondigits a) = chatId_of a.
Proof.
  split; [apply replace_nondigits_idem|]. split; [|split].
  - induction a as [|c r IH]; simpl; [done|].
    destruct (is_digit c); simpl; by rewrite IH.
  - induction a as [|c r IH]; simpl; [done|].
    destruct (is_digit c); simpl; lia.
  - unfold chatId_of. by rewrite replace_nondigits_idem.
Qed.

(** ** The properties at concrete inputs *)

Lemma client_never_shared_witness :
  let ins := [Http GetStartSession; Http GetStartSession; Raised 1 EvReady] in
  sessions (run ext_other ins) !! "010101010101010101010101010101" = Some (snapshot 1)
  ∧ ∃ c, clients (run ext_other ins) !! 1 = Some c
         ∧ cl_sessionId c = "010101010101010101010101010101".
Proof.
  intros ins.
  assert (sessions (run ext_other ins) !! "010101010101010101010101010101"
          = Some (snapshot 1)) as Hs by (vm_compute; reflexivity).
  split; [exact Hs|].
  exact (proj2 (client_never_shared ext_other ins _ _ _ _ Hs Hs eq_refl)).
Defined.

Lemma registry_ids_are_hex_witness :
  String.length demo_id = 30%nat
  ∧ Forall (λ c, is_hex_digit c = true) (list_ascii_of_string demo_id).
Proof.
  apply (registry_ids_are_hex ext_demo [Http GetStartSession; Raised 0 EvReady]
           demo_id (snapshot 0)).
  - intros w. reflexivity.
  - vm_compute. reflexivity.
Defined.

Lemma event_broadcasts_once_witness :
  let w := run ext_demo [Http GetStartSession] in
  (∃ sent, broadcasts (trace (deliver ext_demo 0 (EvQr "X123") w))
           = broadcasts (trace w) ++ sent
           ∧ Forall (λ e, io_sessionId e = demo_id) sent
           ∧ length sent = 1%nat)
  ∧ (∃ sent, broadcasts (trace (deliver ext_demo 0 (EvQr "") w))
             = broadcasts (trace w) ++ sent
             ∧ Forall (λ e, io_sessionId e = demo_id) sent
             ∧ length sent = 0%nat).
Proof.
  intros w.
  assert (clients w !! 0 = Some (mkClosure demo_id "" false)) as Hc
    by (vm_compute; reflexivity).
  split.
  - exact (event_broadcasts_once ext_demo w 0 _ (EvQr "X123") Hc).
  - exact (event_broadcasts_once ext_demo w 0 _ (EvQr "") Hc).
Defined.

Lemma event_touches_one_closure_witness :
  let w := run ext_other [Http GetStartSession; Http GetStartSession] in
  clients (deliver ext_other 0 EvReady w) !! 1 = clients w !! 1
  ∧ sessions (deliver ext_other 0 EvReady w) = sessions w
  ∧ fs (deliver ext_other 0 EvReady w) = fs w.
Proof.
  intros w. apply (event_touches_one_closure ext_other w 0 1 EvReady). lia.
Defined.

Lemma clientReady_needs_ready_witness :
  let ins := [Http GetStartSession; Raised 0 (EvQr "X123"); Raised 0 EvAuthenticated;
              Raised 0 EvReady] in
  EvReady ∈ events_of 0 (trace (run ext_demo ins))
  ∧ ∀ reason, last (events_of 0 (trace (run ext_demo ins))) ≠ Some (EvDisconnected reason).
Proof.
  intros ins.
  apply (clientReady_needs_ready ext_demo ins 0 (mkClosure demo_id "" true)).
  - vm_compute. reflexivity.
  - reflexivity.
Defined.

Lemma logout_removes_auth_store_witness :
  let ins := [Http GetStartSession; Raised 0 (EvQr "X123"); Raised 0 EvReady] in
  let w' := (serve ext_demo (PostLogout demo_id) (run ext_demo ins)).2 in
  (sessions (run ext_demo ins) !! demo_id = Some (snapshot 0)
   ∧ elements (fs (run ext_demo ins)) = [localAuth_dir demo_id])
  ∧ sessions w' !! demo_id = None
  ∧ serve ext_demo (GetQr demo_id) w' = (RespSend 404 "Session not found.", w')
  ∧ dir_gone (localAuth_dir demo_id) (fs w').
Proof.
  intros ins w'. split; [split; vm_compute; reflexivity|].
  apply (logout_removes_auth_store ext_demo ins demo_id w' ext_demo_localAuth).
  vm_compute. reflexivity.
Defined.

Lemma unknown_id_no_effect_witness :
  let w := run ext_demo [Http GetStartSession] in
  (serve ext_demo (GetQr "B") w = (RespSend 404 "Session not found.", w)
   ∧ serve ext_demo (PostLogout "B") w = (RespSend 404 "Session not found.", w)
   ∧ serve ext_demo (GetSendMessage "B") w = (RespRedirect "/qr/B", w))
  ∧ (serve ext_demo (GetQr "constructor") w
     = (RespSend 200 "QR code belum tersedia. Silakan coba lagi nanti.", w)
     ∧ serve ext_demo (PostLogout "constructor") w
       = (RespJson 500 "error" "Failed to log out.", w)
     ∧ serve ext_demo (GetSendMessage "constructor") w
       = (RespRedirect "/qr/constructor", w)).
Proof.
  intros w. split.
  - apply (unknown_id_no_effect ext_demo w "B"). vm_compute. reflexivity.
  - apply (unknown_id_no_effect ext_demo w "constructor"). vm_compute. reflexivity.
Defined.

Lemma after_logout_id_unknown_witness :
  let w := run ext_demo [Http GetStartSession; Raised 0 EvReady] in
  let w' := (serve ext_demo (PostLogout demo_id) w).2 in
  serve ext_demo (GetQr demo_id) w' = (RespSend 404 "Session not found.", w')
  ∧ serve ext_demo (PostSendMessage demo_id (mkBody (Some "1") (Some "hi"))) w'
    = (RespSend 404 "Session not found.", w')
  ∧ serve ext_demo (PostLogout demo_id) w' = (RespSend 404 "Session not found.", w')
  ∧ serve ext_demo (GetSendMessage demo_id) w' = (RespRedirect ("/qr/" +:+ demo_id), w').
Proof.
  intros w w'.
  apply (after_logout_id_unknown ext_demo w demo_id w');
    [left|]; vm_compute; reflexivity.
Defined.

Lemma logout_retry_succeeds_witness :
  let w := run ext_retry [Http GetStartSession] in
  let w1 := (serve ext_retry (PostLogout demo_id) w).2 in
  (serve ext_retry (PostLogout demo_id) w).1 = RespJson 500 "error" "Failed to log out."
  ∧ (serve ext_retry (PostLogout demo_id) w1).1
    = RespJson 200 "success" "Logged out and session cleared. Scan a new QR code."
  ∧ sessions (serve ext_retry (PostLogout demo_id) w1).2 !! demo_id = None.
Proof.
  intros w w1.
  apply (logout_retry_succeeds ext_retry w demo_id (snapshot 0));
    vm_compute; reflexivity.
Defined.

Lemma send_outcome_leaves_state_witness :
  let w := run ext_other [Http GetStartSession] in
  let r := serve ext_other
             (PostSendMessage "000000000000000000000000000000"
                (mkBody (Some "+62 812-3456") (Some "hi"))) w in
  r.1 = RespSend 500 "Failed to send message."
  ∧ sessions r.2 = sessions w ∧ clients r.2 = clients w ∧ fs r.2 = fs w
  ∧ pending r.2 = pending w
  ∧ trace r.2 = trace w ++ [ActSendMessage 0 "628123456@c.us" "hi"].
Proof.
  intros w.
  apply (send_outcome_leaves_state ext_other w "000000000000000000000000000000"
           (snapshot 0) "+62 812-3456" "hi");
    [vm_compute; reflexivity | discriminate | discriminate].
Defined.

Lemma digitless_number_witness :
  let w := run ext_demo [Http GetStartSession] in
  chatId_of "+" = "@c.us"
  ∧ trace (serve ext_demo (PostSendMessage demo_id (mkBody (Some "+") (Some "hi"))) w).2
    = trace w ++ [ActSendMessage 0 "@c.us" "hi"].
Proof.
  intros w.
  apply (digitless_number_sent_to_bare_domain ext_demo w demo_id (snapshot 0) "+" "hi");
    [vm_compute; reflexivity | discriminate | discriminate | by repeat constructor].
Defined.
